(** * prometheus-am-executor: the webhook-to-command bridge of [main.go]

    A shallow embedding of [main.go]: the timestamp and environment encoders
    ([timeToStr], [amDataToEnv]), the process runner ([runner.run]), the
    webhook handler ([handleWebhook]) and the SIGHUP reload goroutine of
    [main], together with the properties of the specification that concern
    them.

    Go values are modelled as follows.
    - [string] is a Rocq [string]; [[]byte] is a [list byte].
    - [int], [int64] are [Z] with the two's-complement wrap-around written
      out ([wrap]); the program is modelled for a 64-bit target, where
      [int] has 64 bits.
    - [map[string]T] is stdpp's [gmap string T].  The order in which a
      [range] statement visits a map is not fixed by the language; it is an
      explicit input of type [RangeOrder], constrained only to enumerate
      the entries of the map.
    - [error] is the text returned by [Error()].
    - package-level variables ([processDuration], [processesCurrent],
      [errCounter], the log) form the record [World], which is passed
      explicitly. *)

From Stdlib Require Import ZArith Ascii String List DecimalString DecimalZ DecimalPos.
From Stdlib.Strings Require Import Byte.
From stdpp Require Import base tactics option list gmap strings fin_maps.

Local Open Scope string_scope.
Local Open Scope list_scope.
Local Open Scope Z_scope.

(** ** Machine integers *)

Module GoInt.

(** Two's-complement reduction of [x] to a signed [w]-bit integer. *)
Definition wrap (w : Z) (x : Z) : Z :=
  (x + 2 ^ (w - 1)) mod 2 ^ w - 2 ^ (w - 1).

Definition in_range (w : Z) (x : Z) : Prop :=
  - 2 ^ (w - 1) <= x < 2 ^ (w - 1).

(** Width of Go's [int] on the modelled (64-bit) target. *)
Definition intSize : Z := 64.

(** The conversion [int(x)] of an [int64]. *)
Definition int (x : Z) : Z := wrap intSize x.

(** [int64] addition. *)
Definition add64 (x y : Z) : Z := wrap 64 (x + y).

End GoInt.

(** ** [strconv] *)

Module strconv.

(** [strconv.Itoa]: the decimal text of an integer, with a leading [-]
    for negative numbers. *)
Definition Itoa (i : Z) : string := NilZero.string_of_int (Z.to_int i).

(** [strconv.Atoi] on canonical decimal texts (those [Itoa] produces). *)
Definition Atoi (s : string) : option Z :=
  Z.of_int <$> NilZero.int_of_string s.

End strconv.

(** ** [time.Time] *)

Module time.

(** A [time.Time] seen through its accessors: [sec] is the number of
    seconds since January 1, year 1, 00:00:00 UTC (an [int64]) and [nsec]
    the nanoseconds within that second. *)
Record Time := mkTime { sec : Z; nsec : Z }.

Definition wf (t : Time) : Prop :=
  GoInt.in_range 64 (sec t) /\ 0 <= nsec t < 1000000000.

(** The zero value of [time.Time]. *)
Definition zero : Time := mkTime 0 0.

Definition secondsPerDay : Z := 86400.

Definition unixToInternal : Z :=
  (1969 * 365 + 1969 / 4 - 1969 / 100 + 1969 / 400) * secondsPerDay.

Definition internalToUnix : Z := - unixToInternal.

(** [t.IsZero()] *)
Definition IsZero (t : Time) : bool := (sec t =? 0) && (nsec t =? 0).

(** [t.Unix()] *)
Definition Unix (t : Time) : Z := GoInt.add64 (sec t) internalToUnix.

(** [time.Unix(s, 0)] *)
Definition ofUnix (s : Z) : Time := mkTime (GoInt.add64 s unixToInternal) 0.

(** [t] cut down to whole seconds. *)
Definition truncSecond (t : Time) : Time := mkTime (sec t) 0.

End time.

(** [timeToStr], main.go lines 121-126. *)
Definition timeToStr (t : time.Time) : string :=
  if time.IsZero t then "0"
  else strconv.Itoa (GoInt.int (time.Unix t)).

(** The inverse reading of an encoded timestamp named by the specification
    ("decoding that string back to a timestamp"): parse the decimal text
    and build the time at that many Unix seconds. *)
Definition strToTime (s : string) : option time.Time :=
  time.ofUnix <$> strconv.Atoi s.

(** ** [template.Data] of alertmanager: the fields [main.go] reads *)

Module Alert.

Record t := mk {
  Status : string;
  Labels : gmap string string;
  Annotations : gmap string string;
  StartsAt : time.Time;
  EndsAt : time.Time;
  GeneratorURL : string
}.

End Alert.

Module Data.

Record t := mk {
  Receiver : string;
  Status : string;
  Alerts : list Alert.t;
  GroupLabels : gmap string string;
  CommonLabels : gmap string string;
  CommonAnnotations : gmap string string;
  ExternalURL : string
}.

(** [&template.Data{}]: every field at its zero value. *)
Definition zero : t := mk "" "" [] ∅ ∅ ∅ "".

End Data.

(** ** Iterating over maps *)

(** The [range] statements over maps in [amDataToEnv]: the outer and inner
    loops of lines 135-143, and those of lines 153-160 for the alert at
    (0-based) position [i]. *)
Inductive RangeSite :=
| CommonGroups
| CommonEntries (p : string)
| AlertGroups (i : nat)
| AlertEntries (i : nat) (p : string).

(** The order in which each [range] statement of one call visits its map. *)
Definition RangeOrder : Type :=
  forall V : Type, RangeSite -> gmap string V -> list (string * V).

(** Go visits every entry of the map exactly once, in an order of its own
    choosing. *)
Definition valid_order (ro : RangeOrder) : Prop :=
  forall (V : Type) (s : RangeSite) (m : gmap string V), ro V s m ≡ₚ map_to_list m.

(** Two orders used in examples: that of [map_to_list] and its reverse. *)
Definition order_fwd : RangeOrder := fun V _ m => map_to_list m.
Definition order_rev : RangeOrder := fun V _ m => reverse (map_to_list m).

(** ** The environment encoder *)

(** The four entries of the slice literal, lines 129-134. *)
Definition env_scalars (td : Data.t) : list string :=
  [ "AMX_RECEIVER=" +:+ Data.Receiver td;
    "AMX_STATUS=" +:+ Data.Status td;
    "AMX_EXTERNAL_URL=" +:+ Data.ExternalURL td;
    "AMX_ALERT_LEN=" +:+ strconv.Itoa (Z.of_nat (length (Data.Alerts td))) ].

(** The map literal of lines 135-139. *)
Definition common_groups (td : Data.t) : gmap string (gmap string string) :=
  <["AMX_LABEL" := Data.CommonLabels td]>
    (<["AMX_GLABEL" := Data.GroupLabels td]>
      (<["AMX_ANNOTATION" := Data.CommonAnnotations td]> ∅)).

(** The map literal of lines 153-156. *)
Definition alert_groups (alert : Alert.t) : gmap string (gmap string string) :=
  <["LABEL" := Alert.Labels alert]>
    (<["ANNOTATION" := Alert.Annotations alert]> ∅).

(** [key := "AMX_ALERT_" + strconv.Itoa(i+1)], line 146. *)
Definition alert_key (i : nat) : string :=
  "AMX_ALERT_" +:+ strconv.Itoa (Z.of_nat i + 1).

(** The body of the loop over [td.Alerts], lines 146-160. *)
Definition alert_step (ro : RangeOrder) (env : list string) (ia : nat * Alert.t) : list string :=
  let '(i, alert) := ia in
  let key := alert_key i in
  let env := env ++
    [ key +:+ "_STATUS" +:+ "=" +:+ Alert.Status alert;
      key +:+ "_START" +:+ "=" +:+ timeToStr (Alert.StartsAt alert);
      key +:+ "_END" +:+ "=" +:+ timeToStr (Alert.EndsAt alert);
      key +:+ "_URL" +:+ "=" +:+ Alert.GeneratorURL alert ] in
  foldl (fun env '(p, m) =>
           foldl (fun env '(k, v) => env ++ [key +:+ "_" +:+ p +:+ "_" +:+ k +:+ "=" +:+ v])
                 env (ro _ (AlertEntries i p) m))
        env (ro _ (AlertGroups i) (alert_groups alert)).

(** [amDataToEnv], main.go lines 128-163. *)
Definition amDataToEnv (ro : RangeOrder) (td : Data.t) : list string :=
  let env := env_scalars td in
  let env :=
    foldl (fun env '(p, m) =>
             foldl (fun env '(k, v) => env ++ [p +:+ "_" +:+ k +:+ "=" +:+ v])
                   env (ro _ (CommonEntries p) m))
          env (ro _ CommonGroups (common_groups td)) in
  let env := foldl (alert_step ro) env (imap pair (Data.Alerts td)) in
  env.

(** The NAME of an environment entry: the text before its first [=]. *)
Fixpoint env_name (e : string) : string :=
  match e with
  | EmptyString => EmptyString
  | String c e' => if Ascii.eqb c "=" then EmptyString else String c (env_name e')
  end.

(** [has_eq s] tells whether [s] contains the character [=]. *)
Fixpoint has_eq (s : string) : bool :=
  match s with
  | EmptyString => false
  | String c s' => Ascii.eqb c "=" || has_eq s'
  end.

(** No key of the map contains [=]. *)
Definition clean_keys (m : gmap string string) : Prop :=
  forall k v, m !! k = Some v -> has_eq k = false.

(** No map key of the payload contains [=]. *)
Definition clean_payload (td : Data.t) : Prop :=
  clean_keys (Data.CommonLabels td) /\
  clean_keys (Data.GroupLabels td) /\
  clean_keys (Data.CommonAnnotations td) /\
  Forall (fun a => clean_keys (Alert.Labels a) /\ clean_keys (Alert.Annotations a))
         (Data.Alerts td).

(** ** The encoder loop by loop, and its output up to reordering *)

(** The entries appended by an inner loop (lines 140-142, 157-159) that
    visits [kvs] under the prefix [pfx]. *)
Definition map_entries (pfx : string) (kvs : list (string * string)) : list string :=
  (fun kv => pfx +:+ "_" +:+ kv.1 +:+ "=" +:+ kv.2) <$> kvs.

(** The four entries of lines 147-152. *)
Definition alert_scalars (i : nat) (alert : Alert.t) : list string :=
  [ alert_key i +:+ "_STATUS" +:+ "=" +:+ Alert.Status alert;
    alert_key i +:+ "_START" +:+ "=" +:+ timeToStr (Alert.StartsAt alert);
    alert_key i +:+ "_END" +:+ "=" +:+ timeToStr (Alert.EndsAt alert);
    alert_key i +:+ "_URL" +:+ "=" +:+ Alert.GeneratorURL alert ].

(** What the loops of lines 135-143 append. *)
Definition common_env (ro : RangeOrder) (td : Data.t) : list string :=
  ro _ CommonGroups (common_groups td) ≫=
    (fun pm => map_entries pm.1 (ro _ (CommonEntries pm.1) pm.2)).

(** What one turn of the loop of lines 145-161 appends. *)
Definition alert_env (ro : RangeOrder) (ia : nat * Alert.t) : list string :=
  alert_scalars ia.1 ia.2 ++
  (ro _ (AlertGroups ia.1) (alert_groups ia.2) ≫=
     (fun pm => map_entries (alert_key ia.1 +:+ "_" +:+ pm.1) (ro _ (AlertEntries ia.1 pm.1) pm.2))).

(** The entries of one alert with every map visited in the order of
    [map_to_list] and the groups in the order of the source text. *)
Definition alert_canonical (ia : nat * Alert.t) : list string :=
  alert_scalars ia.1 ia.2 ++
  map_entries (alert_key ia.1 +:+ "_LABEL") (map_to_list (Alert.Labels ia.2)) ++
  map_entries (alert_key ia.1 +:+ "_ANNOTATION") (map_to_list (Alert.Annotations ia.2)).

(** The same for the whole vector. *)
Definition env_canonical (td : Data.t) : list string :=
  env_scalars td ++
  (map_entries "AMX_LABEL" (map_to_list (Data.CommonLabels td)) ++
   map_entries "AMX_GLABEL" (map_to_list (Data.GroupLabels td)) ++
   map_entries "AMX_ANNOTATION" (map_to_list (Data.CommonAnnotations td))) ++
  (imap pair (Data.Alerts td) ≫= alert_canonical).

(** The characters [0] to [9]. *)
Definition is_digit (c : ascii) : bool :=
  (48 <=? nat_of_ascii c)%nat && (nat_of_ascii c <=? 57)%nat.

Fixpoint all_digits (s : string) : bool :=
  match s with
  | EmptyString => true
  | String c s' => is_digit c && all_digits s'
  end.

(** The names of the entries an inner loop appends for the map [m] under
    the prefix [pfx]. *)
Definition map_names (pfx : string) (m : gmap string string) : list string :=
  (fun k => pfx +:+ "_" +:+ k) <$> (map_to_list m).*1.

(** What follows [AMX_ALERT_<i>_] in the names of the entries of an alert. *)
Definition alert_suffixes (alert : Alert.t) : list string :=
  ["STATUS"; "START"; "END"; "URL"] ++
  map_names "LABEL" (Alert.Labels alert) ++
  map_names "ANNOTATION" (Alert.Annotations alert).

(** The names of the entries of the alert at position [ia.1]. *)
Definition alert_names (ia : nat * Alert.t) : list string :=
  (fun r => alert_key ia.1 +:+ "_" +:+ r) <$> alert_suffixes ia.2.

(** The names of the entries of [env_canonical]. *)
Definition canonical_names (td : Data.t) : list string :=
  ["AMX_RECEIVER"; "AMX_STATUS"; "AMX_EXTERNAL_URL"; "AMX_ALERT_LEN"] ++
  (map_names "AMX_LABEL" (Data.CommonLabels td) ++
   map_names "AMX_GLABEL" (Data.GroupLabels td) ++
   map_names "AMX_ANNOTATION" (Data.CommonAnnotations td)) ++
  (imap pair (Data.Alerts td) ≫= alert_names).

(** ** The world the handler runs in *)

(** A Go [error], by its text. *)
Definition error : Type := string.

Module exec.

(** The fields of [exec.Cmd] that [exec.Command] and the program set.
    [Stdout] and [Stderr] are always the program's [logWriter]. *)
Record Cmd := mkCmd { Path : string; Args : list string; Env : list string }.

(** [exec.Command(name, arg...)].  The arguments begin with the name as it
    was given.  The path is found by os/exec: it is the name itself when
    the name has a directory part, and otherwise what [exec.LookPath]
    finds for it in the directories of [PATH] (the name itself when it
    finds nothing); [path_of] stands for that search, which depends on the
    file system. *)
Definition Command (path_of : string -> string) (name : string) (arg : list string) : Cmd :=
  mkCmd (path_of name) (name :: arg) [].

(** [cmd.Env = env] *)
Definition setEnv (cmd : Cmd) (env : list string) : Cmd :=
  mkCmd (Path cmd) (Args cmd) env.

End exec.

(** What has been handed to the standard logger. *)
Inductive LogEntry :=
| LogText (s : string)
| LogBody (data : list byte)
| LogPayload (payload : Data.t)
| LogError (err : error)
| LogOutput (p : list byte).

(** Calls into the libraries that the properties below speak about, kept
    as a history (oldest first); it is not a variable of the program. *)
Inductive Call :=
| CallUnmarshal (data : list byte)
| CallRun (cmd : exec.Cmd).

(** The package-level state of [main.go].
    - [processDuration]: the observations the histogram has received;
    - [processesCurrent]: the value of the gauge (a count of processes,
      which the gauge's [float64] represents exactly);
    - [errCounter]: the counter vector, from the value of its [stage] label
      to the count of the counter with that label; a label that was never
      asked for has no entry;
    - [gauge_at_run]: the value the gauge had at each call of [cmd.Run],
      oldest first; like [calls] it is a history kept for the properties
      below, not a variable of the program. *)
Record World := mkWorld {
  processDuration : list Z;
  processesCurrent : Z;
  errCounter : gmap string Z;
  logged : list LogEntry;
  calls : list Call;
  gauge_at_run : list Z
}.

(** [processesCurrent.Inc()] *)
Definition Gauge_Inc (st : World) : World :=
  mkWorld (processDuration st) (processesCurrent st + 1) (errCounter st)
          (logged st) (calls st) (gauge_at_run st).

(** [processesCurrent.Dec()] *)
Definition Gauge_Dec (st : World) : World :=
  mkWorld (processDuration st) (processesCurrent st - 1) (errCounter st)
          (logged st) (calls st) (gauge_at_run st).

(** [errCounter.WithLabelValues(stage)]: the counter for the label, created
    at zero when it does not exist yet.  The program discards the result. *)
Definition errCounter_WithLabelValues (stage : string) (st : World) : World :=
  match errCounter st !! stage with
  | Some _ => st
  | None =>
      mkWorld (processDuration st) (processesCurrent st)
              (<[stage := 0]> (errCounter st)) (logged st) (calls st) (gauge_at_run st)
  end.

(** The value the metrics endpoint shows for [errors_total{stage}]. *)
Definition errors_total (stage : string) (st : World) : Z :=
  default 0 (errCounter st !! stage).

(** The number of observations the duration histogram has received. *)
Definition duration_count (st : World) : nat := length (processDuration st).

Definition log_entry (e : LogEntry) (st : World) : World :=
  mkWorld (processDuration st) (processesCurrent st) (errCounter st)
          (logged st ++ [e]) (calls st) (gauge_at_run st).

Definition record_call (c : Call) (st : World) : World :=
  mkWorld (processDuration st) (processesCurrent st) (errCounter st)
          (logged st) (calls st ++ [c]) (gauge_at_run st).

(** The gauge is read for the history as [cmd.Run] is called. *)
Definition record_gauge (st : World) : World :=
  mkWorld (processDuration st) (processesCurrent st) (errCounter st)
          (logged st) (calls st) (gauge_at_run st ++ [processesCurrent st]).

(** ** [http.ResponseWriter] and [http.Request] *)

Module http.

Definition StatusOK : Z := 200.
Definition StatusMethodNotAllowed : Z := 405.
Definition StatusInternalServerError : Z := 500.

(** [status] is the code of the first [WriteHeader], if any. *)
Record ResponseWriter := mkResponseWriter {
  Header : gmap string string;
  status : option Z;
  body : string
}.

Definition newResponseWriter : ResponseWriter := mkResponseWriter ∅ None "".

Definition Header_Set (k v : string) (w : ResponseWriter) : ResponseWriter :=
  mkResponseWriter (<[k := v]> (Header w)) (status w) (body w).

(** [w.WriteHeader(code)]; a second call changes nothing. *)
Definition WriteHeader (code : Z) (w : ResponseWriter) : ResponseWriter :=
  match status w with
  | Some _ => w
  | None => mkResponseWriter (Header w) (Some code) (body w)
  end.

(** [w.Write(s)]; the first write sends the header with status 200 if none
    has been written. *)
Definition Write (s : string) (w : ResponseWriter) : ResponseWriter :=
  let w := WriteHeader StatusOK w in
  mkResponseWriter (Header w) (status w) (body w +:+ s).

(** [http.Error(w, error, code)] *)
Definition Error (w : ResponseWriter) (err : string) (code : Z) : ResponseWriter :=
  let w := Header_Set "Content-Type" "text/plain; charset=utf-8" w in
  let w := Header_Set "X-Content-Type-Options" "nosniff" w in
  let w := WriteHeader code w in
  Write (err +:+ String "010" "") w.

(** The status the client receives once the handler has returned. *)
Definition sent_status (w : ResponseWriter) : Z := default StatusOK (status w).

(** A request body as an [io.Reader]: chunks of bytes, ended by the end of
    the stream or by a read error. *)
Inductive Reader :=
| EOF
| Chunk (p : list byte) (rest : Reader)
| Fail (err : error).

Record Request := mkRequest { Method : string; Path : string; Body : Reader }.

End http.

(** [ioutil.ReadAll] *)
Fixpoint ReadAll (r : http.Reader) : list byte * option error :=
  match r with
  | http.EOF => ([], None)
  | http.Chunk p rest => let '(data, err) := ReadAll rest in (p ++ data, err)
  | http.Fail err => ([], Some err)
  end.

(** ** The runner and the handler *)

Record runner := mkRunner {
  command : string;
  args : list string;
  processes : list exec.Cmd
}.

(** What lies outside [main.go] during one request: the flags and globals
    set by [main], the process environment, the path os/exec finds for a
    command name, the outcome of running a command (what it writes to its
    output, chunk by chunk, and the error of [cmd.Run], [None] for exit
    status 0), the JSON decoder (the payload as it leaves
    [json.Unmarshal] and the decoder's error) and the map iteration
    order. *)
Record Externals := mkExternals {
  verbose : bool;
  rnr : runner;
  os_Environ : list string;
  cmd_Path : string -> string;
  cmd_Run : exec.Cmd -> list (list byte) * option error;
  json_Unmarshal : list byte -> Data.t -> Data.t * option error;
  range_order : RangeOrder
}.

(** [handleError], lines 61-64. *)
Definition handleError (w : http.ResponseWriter) (err : error) (st : World)
  : http.ResponseWriter * World :=
  (http.Error w err http.StatusInternalServerError, log_entry (LogError err) st).

(** [logWriter.Write], lines 99-102. *)
Definition logWriter_Write (st : World) (p : list byte) : World :=
  log_entry (LogOutput p) st.

(** Lines 111-112 of [runner.run]: the state in which the command runs. *)
Definition run_enter (st : World) : World := Gauge_Inc st.

(** Lines 114-118 of [runner.run]. *)
Definition run_command (E : Externals) (r : runner) (env : list string) (st : World)
  : option error * World :=
  let cmd := exec.Command (cmd_Path E) (command r) (args r) in
  let cmd := exec.setEnv cmd (os_Environ E ++ env) in
  let st := record_gauge (record_call (CallRun cmd) st) in
  let '(out, err) := cmd_Run E cmd in
  (err, foldl logWriter_Write st out).

(** [runner.run], lines 110-119; the deferred [processesCurrent.Dec()] runs
    as the function returns. *)
Definition run (E : Externals) (r : runner) (env : list string) (st : World)
  : option error * World :=
  let st := run_enter st in
  let '(err, st) := run_command E r env st in
  (err, Gauge_Dec st).

(** [handleWebhook], lines 66-91. *)
Definition handleWebhook (E : Externals) (w : http.ResponseWriter) (req : http.Request)
    (st : World) : http.ResponseWriter * World :=
  let st := if verbose E then log_entry (LogText "Webhook triggered") st else st in
  let '(data, err) := ReadAll (http.Body req) in
  match err with
  | Some err =>
      let '(w, st) := handleError w err st in
      let st := errCounter_WithLabelValues "read" st in
      (w, st)
  | None =>
      let st := if verbose E then log_entry (LogBody data) st else st in
      let st := record_call (CallUnmarshal data) st in
      let '(payload, uerr) := json_Unmarshal E data Data.zero in
      let '(w, st) :=
        match uerr with
        | Some err =>
            let '(w, st) := handleError w err st in
            (w, errCounter_WithLabelValues "unmarshal" st)
        | None => (w, st)
        end in
      let st := if verbose E then log_entry (LogPayload payload) st else st in
      let '(rerr, st) := run E (rnr E) (amDataToEnv (range_order E) payload) st in
      match rerr with
      | Some err =>
          let '(w, st) := handleError w err st in
          (w, errCounter_WithLabelValues "start" st)
      | None => (w, st)
      end
  end.

(** An [http.Handler]. *)
Definition Handler : Type :=
  http.ResponseWriter -> http.Request -> World -> http.ResponseWriter * World.

(** The mux [main] builds in lines 228-232, on paths in canonical form:
    the pattern [/metrics] names the metrics handler and the pattern [/],
    which matches every other path, names [handleWebhook].  A registration
    consists of a pattern and a handler; it names no method. *)
Definition router (E : Externals) (promhttp_Handler : Handler) : Handler :=
  fun w req st =>
    if String.eqb (http.Path req) "/metrics" then promhttp_Handler w req st
    else handleWebhook E w req st.

(** ** The reload goroutine of [main], lines 264-276 *)

Module reload.

Section Watcher.

Variable Config : Type.

(** Modelled from the spec: [Config.LoadConfig] of [pkg/config], which is
    not part of [main.go].  A reload "either fully succeeds and replaces
    the active config, or fully fails and the previous config remains
    active"; [src] is what the configuration file holds when it is read:
    a configuration, or the error met while reading or parsing it. *)
Definition LoadConfig (src : Config + error) (c : Config) : Config * option error :=
  match src with
  | inl c' => (c', None)
  | inr e => (c, Some e)
  end.

(** Where the goroutine stands: blocked in the [select] of line 267, or
    past the end of its function. *)
Inductive Pc := AtSelect | Returned.

(** [hup] is the content of the channel made with capacity 1; [loads]
    counts the calls of [LoadConfig] made by the goroutine. *)
Record State := mkState {
  hup : list unit;
  pc : Pc;
  exporterConfig : Config;
  messages : list string;
  loads : nat
}.

(** The goroutine after [signal.Notify], with the startup configuration. *)
Definition init (c : Config) : State := mkState [] AtSelect c [] 0.

(** What happens around the goroutine: the process receives SIGHUP, or the
    scheduler lets the goroutine run, the configuration file then holding
    [src]. *)
Inductive Event :=
| SIGHUP
| Schedule (src : Config + error).

(** The signal package sends without blocking: a signal that finds the
    channel full is dropped. *)
Definition deliver (s : State) : State :=
  match hup s with
  | [] => mkState [()] (pc s) (exporterConfig s) (messages s) (loads s)
  | _ :: _ => s
  end.

(** The goroutine runs until it blocks or returns. *)
Definition schedule (src : Config + error) (s : State) : State :=
  match pc s, hup s with
  | AtSelect, _ :: rest =>
      let '(c, err) := LoadConfig src (exporterConfig s) in
      let msg :=
        match err with
        | Some e => "Could not reload configuration: " +:+ e
        | None => "Configuration reloaded"
        end in
      mkState rest Returned c (messages s ++ [msg]) (S (loads s))
  | AtSelect, [] => s
  | Returned, _ => s
  end.

Definition step (s : State) (ev : Event) : State :=
  match ev with
  | SIGHUP => deliver s
  | Schedule src => schedule src s
  end.

Definition run (evs : list Event) (s : State) : State := foldl step s evs.

(** The number of reload signals among the events. *)
Definition signals (evs : list Event) : nat :=
  length (List.filter (fun ev => match ev with SIGHUP => true | Schedule _ => false end) evs).

End Watcher.

Arguments LoadConfig {Config} src c.
Arguments mkState {Config} hup pc exporterConfig messages loads.
Arguments hup {Config} s.
Arguments pc {Config} s.
Arguments exporterConfig {Config} s.
Arguments messages {Config} s.
Arguments loads {Config} s.
Arguments init {Config} c.
Arguments SIGHUP {Config}.
Arguments Schedule {Config} src.
Arguments deliver {Config} s.
Arguments schedule {Config} src s.
Arguments step {Config} s ev.
Arguments run {Config} evs s.
Arguments signals {Config} evs.

End reload.

(** ** Notions used to state further properties of the encoder and the handler *)

(** The number of entries one alert contributes to the vector. *)
Definition alert_entry_count (alert : Alert.t) : nat :=
  (4 + size (Alert.Labels alert) + size (Alert.Annotations alert))%nat.

(** Every map of the payload is empty. *)
Definition no_map_entries (td : Data.t) : Prop :=
  Data.CommonLabels td = ∅ /\ Data.GroupLabels td = ∅ /\ Data.CommonAnnotations td = ∅ /\
  Forall (fun a => Alert.Labels a = ∅ /\ Alert.Annotations a = ∅) (Data.Alerts td).

(** An entry begins with [AMX_], as does its name, and contains [=]. *)
Definition entry_ok (e : string) : Prop :=
  (exists s, e = "AMX_" +:+ s) /\ (exists s, env_name e = "AMX_" +:+ s) /\ has_eq e = true.

(** What [http.Error] appends to the body for an error, if there is one:
    its text and a line feed. *)
Definition error_line (err : option error) : string :=
  match err with
  | Some e => e +:+ String "010" ""
  | None => ""
  end.

(** The header fields [http.Error] sets. *)
Definition error_header : gmap string string :=
  <["X-Content-Type-Options" := "nosniff"]>
    (<["Content-Type" := "text/plain; charset=utf-8"]> ∅).

(** The log entry for an error, if there is one. *)
Definition error_log (err : option error) : list LogEntry :=
  match err with
  | Some e => [LogError e]
  | None => []
  end.

(** The entries logged only under [-v]. *)
Definition verbose_log (E : Externals) (e : LogEntry) : list LogEntry :=
  if verbose E then [e] else [].

(** The command [run] builds for the runner [r] and the entries [env]. *)
Definition run_cmd (E : Externals) (r : runner) (env : list string) : exec.Cmd :=
  exec.mkCmd (cmd_Path E (command r)) (command r :: args r) (os_Environ E ++ env).

(** [E] with the flag [-v] set to [b]. *)
Definition setVerbose (b : bool) (E : Externals) : Externals :=
  mkExternals b (rnr E) (os_Environ E) (cmd_Path E) (cmd_Run E) (json_Unmarshal E)
              (range_order E).

(** ** The start of [main], lines 165-214 and 278-282 *)

Module config.

(** The fields of [config.Config] that [main.go] reads. *)
Record TLSSettings := mkTLS { Enabled : bool; Crt : string; Key : string }.

Record Config := mkConfig { TLS : TLSSettings }.

(** The zero value of [exporterConfig]. *)
Definition zero : Config := mkConfig (mkTLS false "" "").

End config.

Module flag.

(** The flags of lines 24-31 that [main] reads, and [flag.Args()], the
    arguments left after the flags. *)
Record Flags := mkFlags {
  listenAddr : string;
  verbose : bool;
  showVersion : bool;
  createToken : bool;
  configFile : string;
  Args : list string
}.

End flag.

(** What [main] calls outside [main.go] before it serves: [version.Print],
    the configuration file found under a name (a configuration, or the
    error of reading or parsing it) and [createJWT]. *)
Record StartEnv := mkStartEnv {
  version_Print : string + error;
  config_source : string -> config.Config + error;
  createJWT : string + error
}.

(** How the server listens, lines 278-282. *)
Inductive Listener :=
| ListenAndServe
| ListenAndServeTLS (crt key : string).

(** How the start of [main] ends: with an exit after printing, with one of
    the [log.Fatal] calls, or with the server listening. *)
Inductive Startup :=
| VersionShown (v : string)
| VersionFailed (err : error)
| ConfigFailed (err : error)
| TokenShown (token : string)
| TokenFailed (err : error)
| CommandMissing
| Serving (r : runner) (addr : string) (l : Listener).

(** The exit status of the process, when the start ends it: [os.Exit(0)]
    after printing, status 1 from [log.Fatal]. *)
Definition exit_status (s : Startup) : option Z :=
  match s with
  | VersionShown _ | TokenShown _ => Some 0
  | VersionFailed _ | ConfigFailed _ | TokenFailed _ | CommandMissing => Some 1
  | Serving _ _ _ => None
  end.

(** Lines 205-214: the runner made from the positional arguments, [None]
    standing for [log.Fatal("Require command")]. *)
Definition newRunner (positional : list string) : option runner :=
  match positional with
  | [] => None
  | c :: rest =>
      let r := mkRunner c [] [] in
      Some (if (1 <? length positional)%nat
            then mkRunner (command r) rest (processes r)
            else r)
  end.

(** The start of [main] up to the choice of the listener: the version
    flag, the configuration, the token flag, the command, in that order. *)
Definition main_startup (F : flag.Flags) (X : StartEnv) : Startup :=
  if flag.showVersion F then
    match version_Print X with
    | inl v => VersionShown v
    | inr err => VersionFailed err
    end
  else
    let '(exporterConfig, err) :=
      reload.LoadConfig (config_source X (flag.configFile F)) config.zero in
    match err with
    | Some err => ConfigFailed err
    | None =>
        if flag.createToken F then
          match createJWT X with
          | inl token => TokenShown token
          | inr err => TokenFailed err
          end
        else
          match newRunner (flag.Args F) with
          | None => CommandMissing
          | Some r =>
              Serving r (flag.listenAddr F)
                (if config.Enabled (config.TLS exporterConfig)
                 then ListenAndServeTLS (config.Crt (config.TLS exporterConfig))
                                        (config.Key (config.TLS exporterConfig))
                 else ListenAndServe)
          end
    end.

(** ** The signal goroutines of [main] and its last statement, lines 242-282 *)

Module lifecycle.

(** [os.Interrupt], [syscall.SIGTERM] and [syscall.SIGHUP]. *)
Inductive Signal := Interrupt | SIGTERM | SIGHUP.

(** [5*time.Second], in nanoseconds. *)
Definition shutdownTimeout : Z := 5 * 1000000000.

(** Where the goroutine of lines 242-259 stands: blocked in its [select],
    or inside [server.Shutdown]. *)
Inductive TermPc := TermAtSelect | InShutdown.

Section Process.

Variable Config : Type.

(** The process once both goroutines have registered their channels and
    the server listens: [term] is the content of the channel of line 243
    (capacity 1), [reloader] the goroutine of lines 264-276, [shutdowns]
    the timeouts given to [server.Shutdown] so far, [messages] what these
    lines have logged and [exited] the status the process has ended with,
    once it has. *)
Record State := mkState {
  term : list Signal;
  term_pc : TermPc;
  reloader : reload.State Config;
  shutdowns : list Z;
  messages : list string;
  exited : option Z
}.

Definition init (c : Config) : State :=
  mkState [] TermAtSelect (reload.init c) [] [] None.

(** What happens to the process: a signal arrives; the scheduler lets the
    termination goroutine run; [server.Shutdown] returns; the scheduler
    lets the reload goroutine run, the configuration file holding [src];
    [ListenAndServe] or [ListenAndServeTLS] returns in the main goroutine. *)
Inductive Event :=
| Signalled (sig : Signal)
| RunTermination
| ShutdownReturns (result : option error)
| RunReload (src : Config + error)
| ServeReturns (err : error).

(** A signal goes to the channel registered for it; one that finds the
    channel full is dropped. *)
Definition deliver (sig : Signal) (s : State) : State :=
  match sig with
  | SIGHUP =>
      mkState (term s) (term_pc s) (reload.deliver (reloader s)) (shutdowns s)
              (messages s) (exited s)
  | Interrupt | SIGTERM =>
      match term s with
      | [] => mkState [sig] (term_pc s) (reloader s) (shutdowns s) (messages s) (exited s)
      | _ :: _ => s
      end
  end.

(** Lines 245-250: the goroutine takes a signal from [term] and calls
    [server.Shutdown] with a context of five seconds. *)
Definition begin_shutdown (s : State) : State :=
  match term_pc s, term s with
  | TermAtSelect, _ :: rest =>
      mkState rest InShutdown (reloader s) (shutdowns s ++ [shutdownTimeout])
              (messages s) (exited s)
  | _, _ => s
  end.

(** Lines 250-257: [os.Exit(1)] when [server.Shutdown] returned an error,
    [os.Exit(0)] otherwise. *)
Definition end_shutdown (result : option error) (s : State) : State :=
  match term_pc s with
  | InShutdown =>
      match result with
      | Some err =>
          mkState (term s) InShutdown (reloader s) (shutdowns s)
            (messages s ++
               ["Failed to shutdown script_exporter gracefully: " +:+ err +:+ String "010" ""])
            (Some 1)
      | None =>
          mkState (term s) InShutdown (reloader s) (shutdowns s)
            (messages s ++ ["Shutdown script_exporter..." +:+ String "010" ""])
            (Some 0)
      end
  | TermAtSelect => s
  end.

(** Lines 279 and 281: [log.Fatalln] of what the listener returned. *)
Definition serve_returns (err : error) (s : State) : State :=
  mkState (term s) (term_pc s) (reloader s) (shutdowns s)
          (messages s ++ [err +:+ String "010" ""]) (Some 1).

(** Nothing happens in a process that has exited. *)
Definition step (s : State) (ev : Event) : State :=
  match exited s with
  | Some _ => s
  | None =>
      match ev with
      | Signalled sig => deliver sig s
      | RunTermination => begin_shutdown s
      | ShutdownReturns result => end_shutdown result s
      | RunReload src =>
          mkState (term s) (term_pc s) (reload.schedule src (reloader s)) (shutdowns s)
                  (messages s) (exited s)
      | ServeReturns err => serve_returns err s
      end
  end.

Definition run (evs : list Event) (s : State) : State := foldl step s evs.

(** The event is the arrival of [os.Interrupt] or [SIGTERM]. *)
Definition is_termination (ev : Event) : bool :=
  match ev with
  | Signalled Interrupt | Signalled SIGTERM => true
  | _ => false
  end.

(** The event is the arrival of [SIGHUP]. *)
Definition is_hangup (ev : Event) : bool :=
  match ev with
  | Signalled SIGHUP => true
  | _ => false
  end.

(** The event is the return of the listener. *)
Definition is_ServeReturns (ev : Event) : bool :=
  match ev with
  | ServeReturns _ => true
  | _ => false
  end.

End Process.

Arguments mkState {Config} term term_pc reloader shutdowns messages exited.
Arguments term {Config} s.
Arguments term_pc {Config} s.
Arguments reloader {Config} s.
Arguments shutdowns {Config} s.
Arguments messages {Config} s.
Arguments exited {Config} s.
Arguments init {Config} c.
Arguments Signalled {Config} sig.
Arguments RunTermination {Config}.
Arguments ShutdownReturns {Config} result.
Arguments RunReload {Config} src.
Arguments ServeReturns {Config} err.
Arguments deliver {Config} sig s.
Arguments begin_shutdown {Config} s.
Arguments end_shutdown {Config} result s.
Arguments serve_returns {Config} err s.
Arguments step {Config} s ev.
Arguments run {Config} evs s.
Arguments is_termination {Config} ev.
Arguments is_hangup {Config} ev.
Arguments is_ServeReturns {Config} ev.

End lifecycle.

(** The counter vector after [WithLabelValues(stage)] when there was an
    error, untouched otherwise. *)
Definition counters_after (err : option error) (stage : string) (c : gmap string Z)
  : gmap string Z :=
  match err with
  | Some _ => match c !! stage with Some _ => c | None => <[stage := 0]> c end
  | None => c
  end.

(** What holds of the reload goroutine at every moment, [c] being the
    configuration loaded at startup. *)
Definition reload_Inv {Config : Type} (c : Config) (s : reload.State Config) : Prop :=
  (length (reload.hup s) <= 1)%nat /\
  ((reload.pc s = reload.AtSelect /\ reload.loads s = 0%nat /\ reload.exporterConfig s = c) \/
   (reload.pc s = reload.Returned /\ reload.loads s = 1%nat)).

(** What holds of the process after the events [evs]. *)
Definition lifecycle_Inv {Config : Type}
    (evs : list (lifecycle.Event Config)) (s : lifecycle.State Config) : Prop :=
  (lifecycle.term s <> [] -> exists ev, ev ∈ evs /\ lifecycle.is_termination ev = true) /\
  (lifecycle.term_pc s = lifecycle.TermAtSelect -> lifecycle.shutdowns s = []) /\
  (lifecycle.term_pc s = lifecycle.InShutdown ->
     lifecycle.shutdowns s = [lifecycle.shutdownTimeout] /\
     exists ev, ev ∈ evs /\ lifecycle.is_termination ev = true) /\
  (lifecycle.exited s = None \/
   (lifecycle.exited s = Some 0 /\ lifecycle.term_pc s = lifecycle.InShutdown /\
      lifecycle.ShutdownReturns None ∈ evs) \/
   (lifecycle.exited s = Some 1 /\
      ((exists err, lifecycle.ServeReturns err ∈ evs) \/
       (lifecycle.term_pc s = lifecycle.InShutdown /\
          exists err, lifecycle.ShutdownReturns (Some err) ∈ evs)))).

(** ** Concrete situations used in the examples *)

(** A world in which nothing has happened yet. *)
Definition World_init : World := mkWorld [] 0 ∅ [] [] [].

(** A run of [/nonexistent] that cannot be started. *)
Definition E_spawn_failure : Externals :=
  mkExternals false (mkRunner "/nonexistent" [] []) ["PATH=/bin"] (fun name => name)
    (fun _ => ([], Some "fork/exec /nonexistent: no such file or directory"))
    (fun _ td => (td, None))
    order_fwd.

(** A command that runs and exits with status 0, behind a decoder that
    rejects every body and leaves the payload at its zero value. *)
Definition E_decode_failure : Externals :=
  mkExternals false (mkRunner "/bin/true" ["-q"] []) ["PATH=/bin"] (fun name => name)
    (fun _ => ([], None))
    (fun _ td => (td, Some "unexpected end of JSON input"))
    order_fwd.

(** A request whose body yields one chunk and then the end of the stream. *)
Definition req_truncated : http.Request :=
  http.mkRequest "POST" "/" (http.Chunk [x7b] http.EOF).

(** A request whose body cannot be read. *)
Definition req_unreadable : http.Request :=
  http.mkRequest "POST" "/" (http.Chunk [x7b] (http.Fail "unexpected EOF")).

(** The payload of scenario A of the specification, the alert starting on
    2020-01-01T00:00:00Z. *)
Definition td_scenario_A : Data.t :=
  Data.mk "team-x" "firing"
    [Alert.mk "firing" {["job" := "web"]} ∅ (time.mkTime 63713433600 0) time.zero ""]
    ∅ {["severity" := "critical"]} ∅ "http://am".

(** A payload with two common labels. *)
Definition td_two_labels : Data.t :=
  Data.mk "team-x" "firing" [] ∅ (<["a" := "1"]> (<["b" := "2"]> ∅)) ∅ "http://am".

(** A payload with the common labels [a] and [a=b]. *)
Definition td_collide : Data.t :=
  Data.mk "" "" [] ∅ (<["a" := "1"]> (<["a=b" := "2"]> ∅)) ∅ "".

(** A payload with two alerts and no label or annotation at all. *)
Definition td_no_maps : Data.t :=
  Data.mk "team-x" "resolved"
    [Alert.mk "resolved" ∅ ∅ (time.mkTime 63713433600 0) (time.mkTime 63713433660 0) "http://g";
     Alert.mk "firing" ∅ ∅ (time.mkTime 63713433600 0) time.zero ""]
    ∅ ∅ ∅ "http://am".

(** A decoder that rejects every body and a command that exits with
    status 1. *)
Definition E_both_fail : Externals :=
  mkExternals false (mkRunner "/bin/false" [] []) ["PATH=/bin"] (fun name => name)
    (fun _ => ([], Some "exit status 1"))
    (fun _ td => (td, Some "unexpected end of JSON input"))
    order_fwd.

(** Under [-v]: a decoder that yields the payload of scenario A and a
    command that writes two chunks and exits with status 0. *)
Definition E_verbose_ok : Externals :=
  mkExternals true (mkRunner "/bin/echo" ["ok"] []) ["PATH=/bin"] (fun name => name)
    (fun _ => ([[x6f]; [x6b; x0a]], None))
    (fun _ _ => (td_scenario_A, None))
    order_fwd.

(** [am-executor -l :9000 /bin/echo hello] with a configuration that
    enables TLS. *)
Definition flags_serve : flag.Flags :=
  flag.mkFlags ":9000" false false false "config.yaml" ["/bin/echo"; "hello"].

Definition start_env_tls : StartEnv :=
  mkStartEnv (inl "prometheus-am-executor, version 0.1")
    (fun _ => inl (config.mkConfig (config.mkTLS true "server.crt" "server.key")))
    (inl "token").

(** [am-executor -version], without a command. *)
Definition flags_version : flag.Flags :=
  flag.mkFlags ":8080" false true false "config.yaml" [].

(** A time in the first second of 1970, and two times in the first second
    of 2020. *)
Definition t_epoch : time.Time := time.mkTime 62135596800 5.
Definition t_2020_a : time.Time := time.mkTime 63713433600 500.
Definition t_2020_b : time.Time := time.mkTime 63713433600 999.

(** * Properties *)

(** Let [simpl] compute the concatenation of a literal with a text. *)
#[local] Arguments String.append !_ _ / : simpl nomatch.

(** ** Machine integers and decimal texts *)

Module GoIntFacts.

Lemma wrap_in_range x : GoInt.in_range 64 x -> GoInt.wrap 64 x = x.
Proof.
  unfold GoInt.in_range, GoInt.wrap.
  change (2 ^ (64 - 1)) with 9223372036854775808.
  change (2 ^ 64) with 18446744073709551616. intros H.
  rewrite Z.mod_small; lia.
Qed.

Lemma wrap_range x : GoInt.in_range 64 (GoInt.wrap 64 x).
Proof.
  unfold GoInt.in_range, GoInt.wrap.
  change (2 ^ (64 - 1)) with 9223372036854775808.
  change (2 ^ 64) with 18446744073709551616.
  pose proof (Z.mod_pos_bound (x + 9223372036854775808) 18446744073709551616).
  lia.
Qed.

(** Adding a constant and subtracting it again is the identity on
    [int64], whatever overflow happens in between. *)
Lemma add64_cancel x c :
  GoInt.in_range 64 x -> GoInt.add64 (GoInt.add64 x (- c)) c = x.
Proof.
  unfold GoInt.in_range, GoInt.add64, GoInt.wrap.
  change (2 ^ (64 - 1)) with 9223372036854775808.
  change (2 ^ 64) with 18446744073709551616. intros H.
  replace ((x + - c + 9223372036854775808) mod 18446744073709551616
           - 9223372036854775808 + c + 9223372036854775808)
    with ((x + - c + 9223372036854775808) mod 18446744073709551616 + c) by lia.
  rewrite Z.add_mod_idemp_l by lia.
  replace (x + - c + 9223372036854775808 + c) with (x + 9223372036854775808) by lia.
  rewrite Z.mod_small; lia.
Qed.

End GoIntFacts.

Module strconvFacts.

Lemma Atoi_Itoa i : strconv.Atoi (strconv.Itoa i) = Some i.
Proof.
  unfold strconv.Atoi, strconv.Itoa. rewrite NilZero.isi.
  - simpl. f_equal. apply DecimalZ.of_to.
  - destruct i; simpl; try discriminate.
    intros [= H]. by apply Unsigned.to_uint_nonnil in H.
  - destruct i; simpl; try discriminate.
    intros [= H]. by apply Unsigned.to_uint_nonnil in H.
Qed.

Lemma Itoa_inj i j : strconv.Itoa i = strconv.Itoa j -> i = j.
Proof.
  intros H. apply (f_equal strconv.Atoi) in H. rewrite !Atoi_Itoa in H. congruence.
Qed.

End strconvFacts.

(** ** Timestamp encoding *)

Example timeToStr_zero_value : timeToStr time.zero = "0".
Proof. reflexivity. Qed.

Example timeToStr_year_2020 :
  timeToStr (time.mkTime 63713433600 500) = "1577836800".
Proof. vm_compute. reflexivity. Qed.

Example timeToStr_before_epoch :
  timeToStr (time.mkTime 62135596795 0) = "-5".
Proof. vm_compute. reflexivity. Qed.

Lemma timeToStr_IsZero t : time.IsZero t = true -> timeToStr t = "0".
Proof. unfold timeToStr. by intros ->. Qed.

Lemma timeToStr_nonzero t :
  time.IsZero t = false -> timeToStr t = strconv.Itoa (time.Unix t).
Proof.
  unfold timeToStr. intros ->. f_equal.
  apply GoIntFacts.wrap_in_range, GoIntFacts.wrap_range.
Qed.

Lemma strToTime_timeToStr t :
  time.wf t -> time.IsZero t = false ->
  strToTime (timeToStr t) = Some (time.truncSecond t).
Proof.
  intros [Hs _] Hz. rewrite timeToStr_nonzero by done.
  unfold strToTime. rewrite strconvFacts.Atoi_Itoa. simpl.
  unfold time.ofUnix, time.Unix, time.truncSecond, time.internalToUnix.
  by rewrite GoIntFacts.add64_cancel.
Qed.

(** C8. A zero timestamp is encoded as the literal "0"; a non-zero
    timestamp is encoded as the decimal text of its Unix seconds, and
    reading that text back gives the original timestamp at second
    precision. *)
Theorem timeToStr_roundtrip (t : time.Time) :
  time.wf t ->
  (time.IsZero t = true -> timeToStr t = "0") /\
  (time.IsZero t = false ->
     timeToStr t = strconv.Itoa (time.Unix t) /\
     strToTime (timeToStr t) = Some (time.truncSecond t)).
Proof.
  intros Hwf. split.
  - apply timeToStr_IsZero.
  - intros Hz. split.
    + by apply timeToStr_nonzero.
    + by apply strToTime_timeToStr.
Qed.

Lemma timeToStr_roundtrip_witness :
  time.wf (time.mkTime 63713433600 500) /\
  timeToStr (time.mkTime 63713433600 500) = "1577836800" /\
  strToTime "1577836800" = Some (time.mkTime 63713433600 0).
Proof.
  assert (Hwf : time.wf (time.mkTime 63713433600 500)).
  { unfold time.wf, GoInt.in_range. simpl. lia. }
  split; [exact Hwf|].
  destruct (timeToStr_roundtrip _ Hwf) as [_ H].
  destruct (H eq_refl) as [H1 H2].
  split.
  - rewrite H1. vm_compute. reflexivity.
  - vm_compute. reflexivity.
Defined.

(** ** The runner *)

Section Runner.

Variable E : Externals.

Lemma foldl_logWriter_Write st out :
  let st' := foldl logWriter_Write st out in
  processDuration st' = processDuration st /\
  processesCurrent st' = processesCurrent st /\
  errCounter st' = errCounter st /\
  calls st' = calls st.
Proof.
  revert st. induction out as [|p out IH]; intros st; simpl; [done|].
  destruct (IH (logWriter_Write st p)) as (-> & -> & -> & ->). done.
Qed.

(** What [run] leaves of the state it was called in. *)
Lemma run_frame r env st :
  let st' := (run E r env st).2 in
  processDuration st' = processDuration st /\
  processesCurrent st' = processesCurrent st /\
  errCounter st' = errCounter st /\
  calls st' =
    calls st ++
      [CallRun (exec.mkCmd (cmd_Path E (command r)) (command r :: args r)
                  (os_Environ E ++ env))].
Proof.
  unfold run, run_command, run_enter. simpl.
  destruct (cmd_Run E _) as [out err]. simpl.
  destruct (foldl_logWriter_Write
              (record_gauge
                 (record_call
                    (CallRun (exec.setEnv (exec.Command (cmd_Path E) (command r) (args r))
                                          (os_Environ E ++ env))) (Gauge_Inc st))) out)
    as (-> & -> & -> & ->).
  simpl. repeat split. lia.
Qed.

(** [run] returns the error of [cmd.Run]. *)
Lemma run_result r env st :
  (run E r env st).1 =
  (cmd_Run E (exec.mkCmd (cmd_Path E (command r)) (command r :: args r)
                (os_Environ E ++ env))).2.
Proof.
  unfold run, run_command, run_enter, exec.setEnv, exec.Command. simpl.
  by destruct (cmd_Run E _) as [out err].
Qed.

Lemma run_duration_count r env st :
  duration_count (run E r env st).2 = duration_count st.
Proof.
  unfold duration_count. by destruct (run_frame r env st) as (-> & _).
Qed.

Lemma gauge_at_run_foldl_logWriter_Write st out :
  gauge_at_run (foldl logWriter_Write st out) = gauge_at_run st.
Proof. revert st. induction out as [|p out IH]; intros st; simpl; [done|]. by rewrite IH. Qed.

(** The command leaves the gauge as it found it, and the history tells
    what the gauge was when [cmd.Run] was called. *)
Lemma run_command_gauge r env st :
  processesCurrent (run_command E r env st).2 = processesCurrent st /\
  gauge_at_run (run_command E r env st).2 = gauge_at_run st ++ [processesCurrent st].
Proof.
  unfold run_command. destruct (cmd_Run E _) as [out err]. cbn [snd].
  rewrite gauge_at_run_foldl_logWriter_Write.
  by destruct (foldl_logWriter_Write
                 (record_gauge
                    (record_call
                       (CallRun (exec.setEnv (exec.Command (cmd_Path E) (command r) (args r))
                                             (os_Environ E ++ env))) st)) out)
    as (_ & -> & _).
Qed.

(** C7. [run] increments the in-flight gauge on entry: the command runs
    in the state [run_enter] leaves, and when [cmd.Run] is called the
    gauge reads one more than before the call of [run]; it keeps that
    value until the command has ended.  What [run] returns is what the
    command returned, in the state the command left after the deferred
    decrement; so whatever [cmd.Run] returns (no error, an exit error or a
    failure to start), the gauge is back at the value it had before the
    call. *)
Theorem run_restores_gauge (r : runner) (env : list string) (st : World) :
  processesCurrent (run_enter st) = processesCurrent st + 1 /\
  processesCurrent (run_command E r env (run_enter st)).2 = processesCurrent st + 1 /\
  gauge_at_run (run E r env st).2 = gauge_at_run st ++ [processesCurrent st + 1] /\
  run E r env st =
    ((run_command E r env (run_enter st)).1,
     Gauge_Dec (run_command E r env (run_enter st)).2) /\
  (run E r env st).1 = (cmd_Run E (exec.mkCmd (cmd_Path E (command r)) (command r :: args r)
                                     (os_Environ E ++ env))).2 /\
  processesCurrent (run E r env st).2 = processesCurrent st.
Proof.
  assert (Hrun : run E r env st =
                   ((run_command E r env (run_enter st)).1,
                    Gauge_Dec (run_command E r env (run_enter st)).2)).
  { unfold run. by destruct (run_command E r env (run_enter st)). }
  destruct (run_command_gauge r env (run_enter st)) as [Hg Hh].
  split_and!.
  - done.
  - by rewrite Hg.
  - rewrite Hrun. cbn [snd]. unfold Gauge_Dec. cbn [gauge_at_run]. by rewrite Hh.
  - exact Hrun.
  - apply run_result.
  - by destruct (run_frame r env st) as (_ & -> & _).
Qed.

End Runner.

(** C1, on the code: when the command cannot be started, [run] returns
    the error and brings the gauge back to 0, but the duration histogram
    has received no observation (the specification asks for one). *)
Theorem run_spawn_failure_no_observation :
  let '(err, st) := run E_spawn_failure (rnr E_spawn_failure) ["AMX_STATUS=firing"] World_init in
  err = Some "fork/exec /nonexistent: no such file or directory" /\
  processesCurrent st = 0 /\
  duration_count st = 0%nat /\
  duration_count st <> S (duration_count World_init).
Proof. vm_compute. by repeat split. Qed.

(** ** The webhook handler *)

Section Handler.

Variable E : Externals.

Lemma errors_total_WithLabelValues stage l st :
  errors_total stage (errCounter_WithLabelValues l st) = errors_total stage st.
Proof.
  unfold errCounter_WithLabelValues, errors_total.
  destruct (errCounter st !! l) eqn:Hl; [done|]. simpl.
  destruct (decide (l = stage)) as [->|Hne].
  - by rewrite lookup_insert_eq, Hl.
  - by rewrite lookup_insert_ne.
Qed.

Lemma calls_WithLabelValues l st :
  calls (errCounter_WithLabelValues l st) = calls st.
Proof. unfold errCounter_WithLabelValues. by destruct (errCounter st !! l). Qed.

Lemma errors_total_run stage r env st :
  errors_total stage (run E r env st).2 = errors_total stage st.
Proof. unfold errors_total. by destruct (run_frame E r env st) as (_ & _ & -> & _). Qed.

Lemma errors_total_log_entry stage e st :
  errors_total stage (log_entry e st) = errors_total stage st.
Proof. done. Qed.

Lemma errors_total_record_call stage c st :
  errors_total stage (record_call c st) = errors_total stage st.
Proof. done. Qed.

Lemma errors_total_verbose stage e st :
  errors_total stage (if verbose E then log_entry e st else st) = errors_total stage st.
Proof. by destruct (verbose E). Qed.

Lemma calls_verbose e st :
  calls (if verbose E then log_entry e st else st) = calls st.
Proof. by destruct (verbose E). Qed.

Create Rewrite HintDb errors_total.

Hint Rewrite errors_total_WithLabelValues errors_total_run errors_total_log_entry
  errors_total_record_call errors_total_verbose : errors_total.

(** No path through the handler changes the value of any [errors_total]
    counter: [WithLabelValues] is called, but the counter it returns is
    never incremented. *)
Lemma handleWebhook_errors_total stage w req st :
  errors_total stage (handleWebhook E w req st).2 = errors_total stage st.
Proof.
  unfold handleWebhook, handleError.
  destruct (ReadAll (http.Body req)) as [data [err|]]; simpl.
  - by autorewrite with errors_total.
  - destruct (json_Unmarshal E data Data.zero) as [payload [uerr|]];
      match goal with
      | |- context [run E ?r ?env ?s] =>
          pose proof (errors_total_run stage r env s) as Hrun;
          destruct (run E r env s) as [[rerr|] st']
      end; simpl in *; autorewrite with errors_total; rewrite Hrun;
      by autorewrite with errors_total.
Qed.

Lemma sent_status_Error w err :
  http.status w = None ->
  http.sent_status (http.Error w err http.StatusInternalServerError) = 500.
Proof.
  unfold http.Error, http.Write, http.WriteHeader, http.Header_Set, http.sent_status.
  simpl. by intros ->.
Qed.

Lemma status_Error_again w err code :
  http.status w = Some code ->
  http.status (http.Error w err http.StatusInternalServerError) = Some code.
Proof.
  unfold http.Error, http.Write, http.WriteHeader, http.Header_Set. simpl.
  intros H. rewrite H. simpl. by rewrite ?H.
Qed.

Lemma status_Error w err :
  http.status w = None ->
  http.status (http.Error w err http.StatusInternalServerError) = Some 500.
Proof.
  unfold http.Error, http.Write, http.WriteHeader, http.Header_Set. simpl.
  intros H. rewrite H. simpl. by rewrite ?H.
Qed.

(** C3. When the body is read but does not decode, the handler answers
    500 and still encodes the payload left by the decoder and runs the
    command with it. *)
Theorem handleWebhook_decode_failure_still_runs
    (w : http.ResponseWriter) (req : http.Request) (st : World)
    (data : list byte) (payload : Data.t) (err : error) :
  http.status w = None ->
  ReadAll (http.Body req) = (data, None) ->
  json_Unmarshal E data Data.zero = (payload, Some err) ->
  http.sent_status (handleWebhook E w req st).1 = 500 /\
  calls (handleWebhook E w req st).2 =
    calls st ++
      [CallUnmarshal data;
       CallRun (exec.mkCmd (cmd_Path E (command (rnr E)))
                  (command (rnr E) :: args (rnr E))
                  (os_Environ E ++ amDataToEnv (range_order E) payload))].
Proof.
  intros Hw Hread Hjson. unfold handleWebhook, handleError.
  rewrite Hread, Hjson.
  match goal with
  | |- context [run E ?r ?env ?s] =>
      pose proof (run_frame E r env s) as (_ & _ & _ & Hcalls);
      destruct (run E r env s) as [rerr st']
  end.
  simpl in Hcalls.
  rewrite calls_verbose, calls_WithLabelValues in Hcalls. simpl in Hcalls.
  rewrite !calls_verbose, <- (assoc_L (++)) in Hcalls. simpl in Hcalls.
  destruct rerr as [rerr|]; simpl.
  - split.
    + unfold http.sent_status.
      by rewrite (status_Error_again _ _ 500) by by apply status_Error.
    + by rewrite calls_WithLabelValues.
  - split; [by apply sent_status_Error | done].
Qed.

(** C9. When the body cannot be read, the handler answers 500 and
    returns: the decoder is not called and no command is run. *)
Theorem handleWebhook_read_failure_aborts
    (w : http.ResponseWriter) (req : http.Request) (st : World)
    (data : list byte) (err : error) :
  http.status w = None ->
  ReadAll (http.Body req) = (data, Some err) ->
  http.sent_status (handleWebhook E w req st).1 = 500 /\
  calls (handleWebhook E w req st).2 = calls st /\
  processesCurrent (handleWebhook E w req st).2 = processesCurrent st.
Proof.
  intros Hw Hread. unfold handleWebhook, handleError. rewrite Hread. simpl.
  split; [by apply sent_status_Error|].
  unfold errCounter_WithLabelValues.
  destruct (errCounter _ !! "read"); simpl; by destruct (verbose E).
Qed.

(** The handler answers 200 or 500, nothing else. *)
Lemma handleWebhook_status req st :
  http.sent_status (handleWebhook E http.newResponseWriter req st).1 = 200 \/
  http.sent_status (handleWebhook E http.newResponseWriter req st).1 = 500.
Proof.
  unfold handleWebhook, handleError.
  destruct (ReadAll (http.Body req)) as [data [err|]]; simpl; [by right|].
  destruct (json_Unmarshal E data Data.zero) as [payload [uerr|]];
    destruct (run E (rnr E) _ _) as [[rerr|] st']; simpl; auto.
Qed.

(** C10. The handler does not look at the request method: two requests
    with the same path and body and any two methods are handled alike
    (same response, same effects), also when they come through the mux on
    the route [/]; and the answer is 200 or 500, never 405 Method Not
    Allowed. *)
Theorem handleWebhook_ignores_method
    (w : http.ResponseWriter) (st : World) (m1 m2 path : string) (b : http.Reader)
    (promhttp_Handler : Handler) :
  handleWebhook E w (http.mkRequest m1 path b) st =
    handleWebhook E w (http.mkRequest m2 path b) st /\
  router E promhttp_Handler w (http.mkRequest m1 "/" b) st =
    handleWebhook E w (http.mkRequest m2 "/" b) st /\
  http.sent_status (handleWebhook E http.newResponseWriter (http.mkRequest m1 path b) st).1
    <> http.StatusMethodNotAllowed.
Proof.
  split; [done|]. split; [done|].
  destruct (handleWebhook_status (http.mkRequest m1 path b) st) as [-> | ->]; done.
Qed.

End Handler.

Lemma handleWebhook_decode_failure_still_runs_witness :
  http.sent_status
    (handleWebhook E_decode_failure http.newResponseWriter req_truncated World_init).1 = 500 /\
  calls (handleWebhook E_decode_failure http.newResponseWriter req_truncated World_init).2 =
    [CallUnmarshal [x7b];
     CallRun (exec.mkCmd "/bin/true" ["/bin/true"; "-q"]
                ["PATH=/bin"; "AMX_RECEIVER="; "AMX_STATUS="; "AMX_EXTERNAL_URL=";
                 "AMX_ALERT_LEN=0"])].
Proof.
  exact (handleWebhook_decode_failure_still_runs E_decode_failure http.newResponseWriter
           req_truncated World_init [x7b] Data.zero "unexpected end of JSON input"
           eq_refl eq_refl eq_refl).
Defined.

Lemma handleWebhook_read_failure_aborts_witness :
  http.sent_status
    (handleWebhook E_decode_failure http.newResponseWriter req_unreadable World_init).1 = 500 /\
  calls (handleWebhook E_decode_failure http.newResponseWriter req_unreadable World_init).2 = [] /\
  processesCurrent
    (handleWebhook E_decode_failure http.newResponseWriter req_unreadable World_init).2 = 0.
Proof.
  exact (handleWebhook_read_failure_aborts E_decode_failure http.newResponseWriter
           req_unreadable World_init [x7b] "unexpected EOF" eq_refl eq_refl).
Defined.

(** C2, on the code: the three failures of the handler (the body cannot be
    read, the body does not decode, the command fails) leave
    [errors_total] at 0 for their stage; the specification asks for 1. *)
Theorem handleWebhook_failures_not_counted :
  errors_total "read"
    (handleWebhook E_decode_failure http.newResponseWriter req_unreadable World_init).2 = 0 /\
  errors_total "unmarshal"
    (handleWebhook E_decode_failure http.newResponseWriter req_truncated World_init).2 = 0 /\
  errors_total "start"
    (handleWebhook E_spawn_failure http.newResponseWriter req_truncated World_init).2 = 0 /\
  errCounter
    (handleWebhook E_spawn_failure http.newResponseWriter req_truncated World_init).2
    = {[ "start" := 0 ]}.
Proof. vm_compute. by repeat split. Qed.

(** ** The reload goroutine *)

Module reloadFacts.

Section Watcher.

Context {Config : Type}.

(** Once the goroutine has returned, no event changes the configuration
    or makes it load again. *)
Lemma run_Returned (evs : list (reload.Event Config)) (s : reload.State Config) :
  reload.pc s = reload.Returned ->
  reload.pc (reload.run evs s) = reload.Returned /\
  reload.exporterConfig (reload.run evs s) = reload.exporterConfig s /\
  reload.loads (reload.run evs s) = reload.loads s.
Proof.
  revert s. induction evs as [|ev evs IH]; intros s Hs; [done|].
  unfold reload.run in *. simpl.
  assert (Hstep : reload.pc (reload.step s ev) = reload.Returned /\
                  reload.exporterConfig (reload.step s ev) = reload.exporterConfig s /\
                  reload.loads (reload.step s ev) = reload.loads s).
  { destruct ev as [|src]; simpl.
    - unfold reload.deliver. by destruct (reload.hup s).
    - unfold reload.schedule. by rewrite Hs. }
  destruct Hstep as (Hpc & Hc & Hl).
  destruct (IH _ Hpc) as (-> & -> & ->). by rewrite Hc, Hl.
Qed.

(** The goroutine calls [LoadConfig] at most once, however many signals
    arrive. *)
Lemma loads_at_most_once (evs : list (reload.Event Config)) (c : Config) :
  (reload.loads (reload.run evs (reload.init c)) <= 1)%nat.
Proof.
  assert (H : forall s : reload.State Config,
             reload.pc s = reload.AtSelect -> reload.loads s = 0%nat ->
             (reload.loads (reload.run evs s) <= 1)%nat).
  { induction evs as [|ev evs IH]; intros s Hpc Hl; [simpl; lia|].
    unfold reload.run in *. simpl.
    destruct ev as [|src]; simpl.
    - apply IH; unfold reload.deliver; by destruct (reload.hup s).
    - unfold reload.schedule. rewrite Hpc.
      destruct (reload.hup s) as [|u rest]; [by apply IH|].
      destruct (reload.LoadConfig src (reload.exporterConfig s)) as [c' err].
      match goal with
      | |- context [foldl _ ?s' evs] =>
          destruct (run_Returned evs s' eq_refl) as (_ & _ & Hloads)
      end.
      unfold reload.run in Hloads. rewrite Hloads. simpl. lia. }
  by apply H.
Qed.

End Watcher.

(** C4, on the code: two reload signals, each followed by the goroutine
    being scheduled while the file holds a valid configuration (first 1,
    then 2, the startup configuration being 0).  The first signal is
    handled; the second stays in the channel: [LoadConfig] has been called
    once and the active configuration is still 1.  The specification asks
    for a reload on every signal. *)
Theorem reload_second_signal_unhandled :
  let s := reload.run [reload.SIGHUP; reload.Schedule (inl 1%nat);
                       reload.SIGHUP; reload.Schedule (inl 2%nat)]
                      (reload.init 0%nat) in
  reload.signals [reload.SIGHUP; reload.Schedule (inl 1%nat);
                  reload.SIGHUP; reload.Schedule (inl 2%nat)] = 2%nat /\
  reload.loads s = 1%nat /\
  reload.exporterConfig s = 1%nat /\
  reload.pc s = reload.Returned /\
  reload.hup s = [()].
Proof. vm_compute. by repeat split. Qed.

(** A reload that fails keeps the configuration that was active. *)
Example reload_failure_keeps_config :
  reload.exporterConfig
    (reload.run [reload.SIGHUP; reload.Schedule (inr "yaml: line 3: mapping values are not allowed")]
                (reload.init 0%nat)) = 0%nat.
Proof. reflexivity. Qed.

End reloadFacts.

(** ** The environment encoder *)

Lemma append_assoc (a b c : string) : (a +:+ b) +:+ c = a +:+ (b +:+ c).
Proof. induction a as [|x a IH]; simpl; [done|]. by rewrite IH. Qed.

Lemma append_nil_r (a : string) : a +:+ "" = a.
Proof. induction a as [|x a IH]; simpl; [done|]. by rewrite IH. Qed.

Lemma foldl_snoc_fmap {A B} (f : B -> A) (env : list A) (l : list B) :
  foldl (fun env x => env ++ [f x]) env l = env ++ (f <$> l).
Proof.
  revert env. induction l as [|x l IH]; intros env; simpl.
  - by rewrite app_nil_r.
  - by rewrite IH, <- app_assoc.
Qed.

Lemma foldl_append_bind {A B} (f : B -> list A) (g : list A -> B -> list A)
    (env : list A) (l : list B) :
  (forall env x, g env x = env ++ f x) ->
  foldl g env l = env ++ (l ≫= f).
Proof.
  intros Hg. revert env. induction l as [|x l IH]; intros env; simpl.
  - by rewrite app_nil_r.
  - by rewrite IH, Hg, <- app_assoc.
Qed.

Lemma inner_loop (pfx : string) (env : list string) (kvs : list (string * string)) :
  foldl (fun env '(k, v) => env ++ [pfx +:+ "_" +:+ k +:+ "=" +:+ v]) env kvs
  = env ++ map_entries pfx kvs.
Proof.
  unfold map_entries. rewrite <- foldl_snoc_fmap.
  revert env. induction kvs as [|[k v] kvs IH]; intros env; simpl; [done|]. apply IH.
Qed.

Lemma alert_step_eq ro env ia : alert_step ro env ia = env ++ alert_env ro ia.
Proof.
  destruct ia as [i alert]. unfold alert_step, alert_env. simpl fst; simpl snd.
  rewrite (foldl_append_bind
             (fun pm => map_entries (alert_key i +:+ "_" +:+ pm.1)
                          (ro _ (AlertEntries i pm.1) pm.2))).
  - by rewrite <- app_assoc.
  - intros env' [p m]. simpl fst; simpl snd. rewrite <- inner_loop.
    generalize (ro string (AlertEntries i p) m). intros kvs. revert env'.
    induction kvs as [|[k v] kvs IH]; intros env'; simpl; [done|].
    rewrite IH. by rewrite !append_assoc.
Qed.

Lemma amDataToEnv_eq ro td :
  amDataToEnv ro td =
  env_scalars td ++ common_env ro td ++ (imap pair (Data.Alerts td) ≫= alert_env ro).
Proof.
  unfold amDataToEnv, common_env.
  rewrite (foldl_append_bind (alert_env ro)) by apply alert_step_eq.
  rewrite (foldl_append_bind
             (fun pm => map_entries pm.1 (ro _ (CommonEntries pm.1) pm.2))).
  - by rewrite <- app_assoc.
  - intros env [p m]. apply inner_loop.
Qed.

Lemma bind_Permutation_ext {A B} (f g : A -> list B) (l l' : list A) :
  l ≡ₚ l' -> (forall x, f x ≡ₚ g x) -> l ≫= f ≡ₚ l' ≫= g.
Proof.
  intros Hl Hfg. rewrite Hl. clear l Hl.
  induction l' as [|x l' IH]; simpl; [done|]. by rewrite IH, Hfg.
Qed.

Lemma common_groups_to_list td :
  map_to_list (common_groups td) ≡ₚ
  [("AMX_LABEL", Data.CommonLabels td); ("AMX_GLABEL", Data.GroupLabels td);
   ("AMX_ANNOTATION", Data.CommonAnnotations td)].
Proof.
  unfold common_groups.
  rewrite !map_to_list_insert, map_to_list_empty; [done|by simplify_map_eq..].
Qed.

Lemma alert_groups_to_list alert :
  map_to_list (alert_groups alert) ≡ₚ
  [("LABEL", Alert.Labels alert); ("ANNOTATION", Alert.Annotations alert)].
Proof.
  unfold alert_groups.
  rewrite !map_to_list_insert, map_to_list_empty; [done|by simplify_map_eq..].
Qed.

Section Canonical.

Variable ro : RangeOrder.
Hypothesis ro_valid : valid_order ro.

Lemma map_entries_order pfx s m :
  map_entries pfx (ro _ s m) ≡ₚ map_entries pfx (map_to_list m).
Proof. unfold map_entries. by rewrite (ro_valid _ s m). Qed.

Lemma common_env_canonical td :
  common_env ro td ≡ₚ
  map_entries "AMX_LABEL" (map_to_list (Data.CommonLabels td)) ++
  map_entries "AMX_GLABEL" (map_to_list (Data.GroupLabels td)) ++
  map_entries "AMX_ANNOTATION" (map_to_list (Data.CommonAnnotations td)).
Proof.
  unfold common_env.
  rewrite (bind_Permutation_ext _ (fun pm => map_entries pm.1 (map_to_list pm.2)) _
             [("AMX_LABEL", Data.CommonLabels td); ("AMX_GLABEL", Data.GroupLabels td);
              ("AMX_ANNOTATION", Data.CommonAnnotations td)]).
  - simpl. by rewrite app_nil_r.
  - rewrite (ro_valid _ CommonGroups). apply common_groups_to_list.
  - intros [p m]. apply map_entries_order.
Qed.

Lemma alert_env_canonical ia : alert_env ro ia ≡ₚ alert_canonical ia.
Proof.
  destruct ia as [i alert]. unfold alert_env, alert_canonical. simpl fst; simpl snd.
  apply Permutation_app_head.
  rewrite (bind_Permutation_ext _
             (fun pm => map_entries (alert_key i +:+ "_" +:+ pm.1) (map_to_list pm.2)) _
             [("LABEL", Alert.Labels alert); ("ANNOTATION", Alert.Annotations alert)]).
  - rewrite !bind_cons. change ([] ≫= _) with (@nil string). rewrite app_nil_r. reflexivity.
  - rewrite (ro_valid _ (AlertGroups i)). apply alert_groups_to_list.
  - intros [p m]. apply map_entries_order.
Qed.

Lemma amDataToEnv_canonical td : amDataToEnv ro td ≡ₚ env_canonical td.
Proof.
  rewrite amDataToEnv_eq. unfold env_canonical.
  apply Permutation_app_head. rewrite common_env_canonical.
  apply Permutation_app_head.
  apply bind_Permutation_ext; [done|]. apply alert_env_canonical.
Qed.

End Canonical.

Lemma order_fwd_valid : valid_order order_fwd.
Proof. by intros V s m. Qed.

Lemma order_rev_valid : valid_order order_rev.
Proof. intros V s m. unfold order_rev. apply reverse_Permutation. Qed.

(** *** Characters of the generated names *)

Lemma has_eq_app a b : has_eq (a +:+ b) = has_eq a || has_eq b.
Proof. induction a as [|c a IH]; simpl; [done|]. by rewrite IH, orb_assoc. Qed.

Lemma env_name_app a b : has_eq a = false -> env_name (a +:+ b) = a +:+ env_name b.
Proof.
  induction a as [|c a IH]; simpl; [done|].
  destruct (Ascii.eqb c "="); [done|]. simpl. intros H. by rewrite IH.
Qed.

Lemma env_name_entry a v : has_eq a = false -> env_name (a +:+ "=" +:+ v) = a.
Proof. intros H. rewrite env_name_app by done. simpl. apply append_nil_r. Qed.

Lemma all_digits_has_eq s : all_digits s = true -> has_eq s = false.
Proof.
  induction s as [|c s IH]; simpl; [done|].
  intros [Hc Hs]%andb_prop. rewrite (IH Hs), orb_false_r.
  destruct (Ascii.eqb_spec c "=") as [->|]; [done|done].
Qed.

Lemma all_digits_uint d : all_digits (NilEmpty.string_of_uint d) = true.
Proof. induction d; simpl; by rewrite ?IHd. Qed.

Lemma all_digits_Itoa n : 0 <= n -> all_digits (strconv.Itoa n) = true.
Proof.
  intros Hn. unfold strconv.Itoa. destruct n as [|p|p]; [done| |lia].
  simpl. unfold NilZero.string_of_uint.
  destruct (Pos.to_uint p) eqn:Hp; rewrite <- ?Hp; try apply all_digits_uint.
  by apply Unsigned.to_uint_nonnil in Hp.
Qed.

Lemma Itoa_nonempty n : strconv.Itoa n <> "".
Proof.
  intros H. pose proof (strconvFacts.Atoi_Itoa n) as Ha. by rewrite H in Ha.
Qed.

(** Two texts made of digits and followed by an underscore are equal as
    soon as what they begin is. *)
Lemma digits_underscore s1 s2 r1 r2 :
  all_digits s1 = true -> all_digits s2 = true ->
  s1 +:+ String "_" r1 = s2 +:+ String "_" r2 -> s1 = s2 /\ r1 = r2.
Proof.
  revert s2. induction s1 as [|c s1 IH]; intros [|c' s2]; simpl.
  - intros _ _ [= ->]. done.
  - intros _ [Hc _]%andb_prop [= <- _]. done.
  - intros [Hc _]%andb_prop _ [= -> _]. done.
  - intros [_ H1]%andb_prop [_ H2]%andb_prop [= -> H].
    destruct (IH _ H1 H2 H) as [-> ->]. done.
Qed.

Lemma has_eq_alert_key i : has_eq (alert_key i) = false.
Proof.
  unfold alert_key. rewrite has_eq_app. simpl.
  apply all_digits_has_eq, all_digits_Itoa. lia.
Qed.

Lemma alert_key_inj i j r1 r2 :
  alert_key i +:+ "_" +:+ r1 = alert_key j +:+ "_" +:+ r2 -> i = j /\ r1 = r2.
Proof.
  unfold alert_key. rewrite !append_assoc. intros H%(inj (String.app _)).
  apply digits_underscore in H as [H ->]; [|apply all_digits_Itoa; lia..].
  apply strconvFacts.Itoa_inj in H. split; [lia|done].
Qed.

(** No alert entry is named [AMX_ALERT_LEN]. *)
Lemma alert_key_not_LEN i r : alert_key i +:+ "_" +:+ r <> "AMX_ALERT_LEN".
Proof.
  unfold alert_key. rewrite append_assoc. change "AMX_ALERT_LEN" with ("AMX_ALERT_" +:+ "LEN").
  intros H%(inj (String.app _)).
  pose proof (all_digits_Itoa (Z.of_nat i + 1) ltac:(lia)) as Hd.
  pose proof (Itoa_nonempty (Z.of_nat i + 1)) as Hne.
  destruct (strconv.Itoa (Z.of_nat i + 1)) as [|c s]; [done|].
  simpl in H, Hd. injection H as -> _. done.
Qed.

(** *** The names of the canonical vector *)

Lemma clean_keys_Forall m :
  clean_keys m -> Forall (fun kv => has_eq kv.1 = false) (map_to_list m).
Proof.
  intros Hm. apply Forall_forall. intros [k v] Hkv%elem_of_map_to_list. by eapply Hm.
Qed.

Lemma map_entries_names pfx m :
  has_eq pfx = false -> clean_keys m ->
  env_name <$> map_entries pfx (map_to_list m) = map_names pfx m.
Proof.
  intros Hp Hm. unfold map_entries, map_names.
  rewrite <- !list_fmap_compose. apply list_fmap_ext.
  intros _ [k v] Hkv%list_elem_of_lookup_2%elem_of_map_to_list.
  unfold compose. simpl fst; simpl snd.
  rewrite <- (append_assoc "_" k), <- (append_assoc pfx). apply env_name_entry.
  rewrite !has_eq_app, Hp. simpl. by rewrite (Hm k v).
Qed.

Lemma fmap_bind_list {A B C} (f : B -> C) (g : A -> list B) (l : list A) :
  f <$> (l ≫= g) = l ≫= (fun x => f <$> g x).
Proof.
  induction l as [|x l IH]; [done|]. by rewrite !bind_cons, fmap_app, IH.
Qed.

Lemma alert_canonical_names ia :
  clean_keys (Alert.Labels ia.2) -> clean_keys (Alert.Annotations ia.2) ->
  env_name <$> alert_canonical ia = alert_names ia.
Proof.
  destruct ia as [i alert]. cbn [fst snd]. intros HL HA.
  unfold alert_canonical, alert_names, alert_suffixes. cbn [fst snd].
  rewrite !fmap_app.
  rewrite !map_entries_names by (done || by rewrite has_eq_app, has_eq_alert_key).
  f_equal; [|f_equal].
  - unfold alert_scalars. rewrite !fmap_cons.
    rewrite !(env_name_app (alert_key i)) by apply has_eq_alert_key. done.
  - unfold map_names. generalize ((map_to_list (Alert.Labels alert)).*1). intros ks.
    rewrite <- list_fmap_compose. apply list_fmap_ext.
    intros _ k _. unfold compose. by rewrite !append_assoc.
  - unfold map_names. generalize ((map_to_list (Alert.Annotations alert)).*1). intros ks.
    rewrite <- list_fmap_compose. apply list_fmap_ext.
    intros _ k _. unfold compose. by rewrite !append_assoc.
Qed.

Lemma env_canonical_names td :
  clean_payload td -> env_name <$> env_canonical td = canonical_names td.
Proof.
  intros (HCL & HGL & HCA & HAl). unfold env_canonical, canonical_names.
  rewrite !fmap_app, !map_entries_names by done.
  f_equal. f_equal.
  rewrite fmap_bind_list.
  assert (Hal : Forall (fun ia : nat * Alert.t =>
                          clean_keys (Alert.Labels ia.2) /\ clean_keys (Alert.Annotations ia.2))
                       (imap pair (Data.Alerts td))).
  { apply Forall_forall. intros [i a] (j & x & [= -> ->] & Hx)%elem_of_lookup_imap.
    rewrite Forall_forall in HAl. apply HAl. by eapply list_elem_of_lookup_2. }
  induction Hal as [|ia l [HL HA] _ IH]; [done|].
  by rewrite !bind_cons, IH, alert_canonical_names.
Qed.

(** *** The names are pairwise distinct *)

Lemma elem_of_map_names pfx m x :
  x ∈ map_names pfx m -> exists k, x = pfx +:+ "_" +:+ k.
Proof. unfold map_names. intros (k & -> & _)%list_elem_of_fmap. by exists k. Qed.

Lemma NoDup_map_names pfx m : NoDup (map_names pfx m).
Proof.
  unfold map_names. apply NoDup_fmap_2_strong; [|apply NoDup_fst_map_to_list].
  intros k1 k2 _ _ H. by apply (inj (String.app _)), (inj (String.app _)) in H.
Qed.

Lemma elem_of_alert_names ia x :
  x ∈ alert_names ia -> exists r, x = alert_key ia.1 +:+ "_" +:+ r.
Proof. unfold alert_names. intros (r & -> & _)%list_elem_of_fmap. by exists r. Qed.

(** Case analysis on membership in a list written out in full. *)
Ltac elem_cases H :=
  repeat (apply elem_of_cons in H as [->|H]); try (by apply elem_of_nil in H).

(** Two names that differ within their constant beginnings. *)
Ltac names_differ :=
  match goal with
  | H : _ = _ |- _ => by (simpl in H; simplify_eq)
  end.

Lemma NoDup_alert_suffixes alert : NoDup (alert_suffixes alert).
Proof.
  unfold alert_suffixes. rewrite !NoDup_app. repeat split.
  - by apply (bool_decide_unpack _).
  - intros x Hx [Hl|Hl]%elem_of_app;
      apply elem_of_map_names in Hl as [k Hk]; elem_cases Hx; names_differ.
  - apply NoDup_map_names.
  - intros x [k ->]%elem_of_map_names [k' Hk']%elem_of_map_names. names_differ.
  - apply NoDup_map_names.
Qed.

Lemma NoDup_alert_names ia : NoDup (alert_names ia).
Proof.
  unfold alert_names. apply NoDup_fmap_2_strong; [|apply NoDup_alert_suffixes].
  intros r1 r2 _ _ H. by apply alert_key_inj in H as [_ ->].
Qed.

Lemma NoDup_imap_pair {A} (l : list A) : NoDup (imap pair l).
Proof.
  apply NoDup_alt. intros i j [k x] Hi Hj.
  apply list_lookup_imap_Some in Hi as (y & Hy & [= -> ->]).
  apply list_lookup_imap_Some in Hj as (z & Hz & [= -> _]). done.
Qed.

Lemma NoDup_alerts_names (alerts : list Alert.t) :
  NoDup (imap pair alerts ≫= alert_names).
Proof.
  apply NoDup_bind.
  - intros [i1 a1] [i2 a2] y H1 H2 [r1 ->]%elem_of_alert_names [r2 Hr]%elem_of_alert_names.
    cbn [fst snd] in *. apply alert_key_inj in Hr as [-> _].
    apply elem_of_lookup_imap in H1 as (j1 & x1 & [= -> ->] & Hx1).
    apply elem_of_lookup_imap in H2 as (j2 & x2 & [= -> ->] & Hx2).
    congruence.
  - intros ia _. apply NoDup_alert_names.
  - apply NoDup_imap_pair.
Qed.

Lemma NoDup_canonical_names td : NoDup (canonical_names td).
Proof.
  unfold canonical_names. rewrite !NoDup_app. repeat split.
  - by apply (bool_decide_unpack _).
  - intros x Hx [[Hl|[Hl|Hl]%elem_of_app]%elem_of_app|Hl]%elem_of_app.
    1-3: apply elem_of_map_names in Hl as [k Hk]; elem_cases Hx; names_differ.
    apply list_elem_of_bind in Hl as (ia & [r Hr]%elem_of_alert_names & _).
    elem_cases Hx; try (unfold alert_key in Hr; names_differ).
    by apply symmetry, alert_key_not_LEN in Hr.
  - apply NoDup_map_names.
  - intros x [k ->]%elem_of_map_names [Hl|Hl]%elem_of_app;
      apply elem_of_map_names in Hl as [k' Hk']; names_differ.
  - apply NoDup_map_names.
  - intros x [k ->]%elem_of_map_names [k' Hk']%elem_of_map_names. names_differ.
  - apply NoDup_map_names.
  - intros x Hx (ia & [r Hr]%elem_of_alert_names & _)%list_elem_of_bind.
    unfold alert_key in Hr.
    apply elem_of_app in Hx as [Hl|[Hl|Hl]%elem_of_app];
      apply elem_of_map_names in Hl as [k ->]; names_differ.
  - apply NoDup_alerts_names.
Qed.

(** *** Names are never empty *)

Lemma env_name_AMX s : env_name ("AMX_" +:+ s) <> "".
Proof. done. Qed.

Lemma map_entries_AMX pfx kvs :
  Forall (fun e => env_name e <> "") (map_entries ("AMX_" +:+ pfx) kvs).
Proof. unfold map_entries. apply Forall_fmap, Forall_forall. by intros kv _. Qed.

Lemma alert_canonical_AMX ia : Forall (fun e => env_name e <> "") (alert_canonical ia).
Proof.
  destruct ia as [i alert]. unfold alert_canonical, alert_key. cbn [fst snd].
  rewrite !Forall_app. split_and!.
  - unfold alert_scalars, alert_key. by repeat constructor.
  - rewrite append_assoc. apply (map_entries_AMX ("ALERT_" +:+ _)).
  - rewrite append_assoc. apply (map_entries_AMX ("ALERT_" +:+ _)).
Qed.

Lemma env_canonical_AMX td : Forall (fun e => env_name e <> "") (env_canonical td).
Proof.
  unfold env_canonical. rewrite !Forall_app. split_and!.
  - unfold env_scalars. by repeat constructor.
  - apply (map_entries_AMX "LABEL").
  - apply (map_entries_AMX "GLABEL").
  - apply (map_entries_AMX "ANNOTATION").
  - apply Forall_forall. intros e (ia & He & _)%list_elem_of_bind.
    pose proof (alert_canonical_AMX ia) as H. rewrite Forall_forall in H. by apply H.
Qed.

(** *** Payloads whose keys are free of [=] *)

Lemma clean_keys_empty : clean_keys ∅.
Proof. intros k v H. by rewrite lookup_empty in H. Qed.

Lemma clean_keys_insert k v m :
  has_eq k = false -> clean_keys m -> clean_keys (<[k := v]> m).
Proof.
  intros Hk Hm k' v' H. destruct (decide (k = k')) as [<-|Hne]; [done|].
  rewrite lookup_insert_ne in H by done. by eapply Hm.
Qed.

Lemma clean_keys_singleton k v : has_eq k = false -> clean_keys {[k := v]}.
Proof. intros Hk. apply clean_keys_insert; [done|apply clean_keys_empty]. Qed.

Lemma td_scenario_A_clean : clean_payload td_scenario_A.
Proof.
  unfold clean_payload, td_scenario_A. simpl. split_and!.
  - by apply clean_keys_singleton.
  - apply clean_keys_empty.
  - apply clean_keys_empty.
  - repeat constructor; simpl; [by apply clean_keys_singleton | apply clean_keys_empty].
Qed.

(** Scenario A of the specification. *)
Example amDataToEnv_scenario_A :
  amDataToEnv order_fwd td_scenario_A =
  ["AMX_RECEIVER=team-x"; "AMX_STATUS=firing"; "AMX_EXTERNAL_URL=http://am";
   "AMX_ALERT_LEN=1"; "AMX_LABEL_severity=critical"; "AMX_ALERT_1_STATUS=firing";
   "AMX_ALERT_1_START=1577836800"; "AMX_ALERT_1_END=0"; "AMX_ALERT_1_URL=";
   "AMX_ALERT_1_LABEL_job=web"].
Proof. vm_compute. reflexivity. Qed.

(** C5, as the code has it.  Whatever order the maps are visited in, no
    entry of the vector has an empty NAME; and when no map key of the
    payload contains [=], the NAMEs of the vector are pairwise distinct. *)
Theorem amDataToEnv_names_distinct (ro : RangeOrder) (td : Data.t) :
  valid_order ro ->
  Forall (fun e => env_name e <> "") (amDataToEnv ro td) /\
  (clean_payload td -> NoDup (env_name <$> amDataToEnv ro td)).
Proof.
  intros Hro. split.
  - rewrite (amDataToEnv_canonical ro Hro td). apply env_canonical_AMX.
  - intros Hclean. rewrite (amDataToEnv_canonical ro Hro td).
    rewrite env_canonical_names by done. apply NoDup_canonical_names.
Qed.

Lemma amDataToEnv_names_distinct_witness :
  Forall (fun e => env_name e <> "") (amDataToEnv order_rev td_scenario_A) /\
  NoDup (env_name <$> amDataToEnv order_rev td_scenario_A).
Proof.
  destruct (amDataToEnv_names_distinct order_rev td_scenario_A order_rev_valid) as [H1 H2].
  split; [exact H1 | exact (H2 td_scenario_A_clean)].
Defined.

(** C5 as stated fails: with the common labels [a] and [a=b] (two distinct
    keys of one map) the entries [AMX_LABEL_a=1] and [AMX_LABEL_a=b=2] have
    the same NAME, [AMX_LABEL_a]. *)
Lemma amDataToEnv_names_collide :
  valid_order order_fwd /\
  amDataToEnv order_fwd td_collide =
    ["AMX_RECEIVER="; "AMX_STATUS="; "AMX_EXTERNAL_URL="; "AMX_ALERT_LEN=0";
     "AMX_LABEL_a=b=2"; "AMX_LABEL_a=1"] /\
  ~ NoDup (env_name <$> amDataToEnv order_fwd td_collide).
Proof.
  split; [apply order_fwd_valid|]. split; [by vm_compute|].
  apply (bool_decide_unpack _). by vm_compute.
Qed.

(** C6, as the code has it.  Two encodings of one payload, under any two
    orders of visiting the maps, have the same entries with the same
    multiplicities (each vector is a reordering of the other) and begin
    with the same four scalar entries. *)
Theorem amDataToEnv_same_entries (ro1 ro2 : RangeOrder) (td : Data.t) :
  valid_order ro1 -> valid_order ro2 ->
  amDataToEnv ro1 td ≡ₚ amDataToEnv ro2 td /\
  take 4 (amDataToEnv ro1 td) = env_scalars td /\
  take 4 (amDataToEnv ro2 td) = env_scalars td.
Proof.
  intros H1 H2. split_and!.
  - by rewrite (amDataToEnv_canonical ro1 H1), (amDataToEnv_canonical ro2 H2).
  - by rewrite amDataToEnv_eq.
  - by rewrite amDataToEnv_eq.
Qed.

Lemma amDataToEnv_same_entries_witness :
  amDataToEnv order_fwd td_two_labels ≡ₚ amDataToEnv order_rev td_two_labels /\
  take 4 (amDataToEnv order_fwd td_two_labels) = env_scalars td_two_labels /\
  take 4 (amDataToEnv order_rev td_two_labels) = env_scalars td_two_labels.
Proof.
  exact (amDataToEnv_same_entries order_fwd order_rev td_two_labels
           order_fwd_valid order_rev_valid).
Defined.

(** C6 as stated fails: the two labels of [td_two_labels] come out in
    either order, so two encodings of the same payload differ, and one of
    them is not sorted by key. *)
Lemma amDataToEnv_order_dependent :
  valid_order order_fwd /\ valid_order order_rev /\
  amDataToEnv order_fwd td_two_labels =
    ["AMX_RECEIVER=team-x"; "AMX_STATUS=firing"; "AMX_EXTERNAL_URL=http://am";
     "AMX_ALERT_LEN=0"; "AMX_LABEL_a=1"; "AMX_LABEL_b=2"] /\
  amDataToEnv order_rev td_two_labels =
    ["AMX_RECEIVER=team-x"; "AMX_STATUS=firing"; "AMX_EXTERNAL_URL=http://am";
     "AMX_ALERT_LEN=0"; "AMX_LABEL_b=2"; "AMX_LABEL_a=1"] /\
  amDataToEnv order_fwd td_two_labels <> amDataToEnv order_rev td_two_labels.
Proof.
  split; [apply order_fwd_valid|]. split; [apply order_rev_valid|].
  split; [by vm_compute|]. split; [by vm_compute|]. by vm_compute.
Qed.

(** * Further properties *)

(** ** More on the encoder *)


Lemma elem_of_map_entries pfx m e :
  e ∈ map_entries pfx (map_to_list m) <->
  exists k v, m !! k = Some v /\ e = pfx +:+ "_" +:+ k +:+ "=" +:+ v.
Proof.
  unfold map_entries. rewrite list_elem_of_fmap. split.
  - intros ([k v] & -> & Hkv%elem_of_map_to_list). by exists k, v.
  - intros (k & v & Hkv & ->). exists (k, v). split; [done|]. by apply elem_of_map_to_list.
Qed.

Lemma elem_of_alert_canonical i alert e :
  e ∈ alert_canonical (i, alert) <->
  e ∈ alert_scalars i alert \/
  (exists k v, Alert.Labels alert !! k = Some v /\
               e = alert_key i +:+ "_LABEL_" +:+ k +:+ "=" +:+ v) \/
  (exists k v, Alert.Annotations alert !! k = Some v /\
               e = alert_key i +:+ "_ANNOTATION_" +:+ k +:+ "=" +:+ v).
Proof.
  unfold alert_canonical. cbn [fst snd].
  rewrite !elem_of_app, !elem_of_map_entries.
  assert (Ha : forall s k v, (alert_key i +:+ s) +:+ "_" +:+ k +:+ "=" +:+ v
                            = alert_key i +:+ (s +:+ "_") +:+ k +:+ "=" +:+ v).
  { intros s k v. by rewrite !append_assoc. }
  split.
  - intros [H|[(k & v & Hk & ->)|(k & v & Hk & ->)]]; [by left|right; left|right; right];
      exists k, v; (split; [done|]); apply Ha.
  - intros [H|[(k & v & Hk & ->)|(k & v & Hk & ->)]]; [by left|right; left|right; right];
      exists k, v; (split; [done|]); symmetry; apply Ha.
Qed.

(** The entries of the vector, case by case. *)
Lemma amDataToEnv_elem_of_cases (ro : RangeOrder) (td : Data.t) (e : string) :
  valid_order ro ->
  e ∈ amDataToEnv ro td ->
    e ∈ env_scalars td \/
    (exists k v, Data.CommonLabels td !! k = Some v /\ e = "AMX_LABEL_" +:+ k +:+ "=" +:+ v) \/
    (exists k v, Data.GroupLabels td !! k = Some v /\ e = "AMX_GLABEL_" +:+ k +:+ "=" +:+ v) \/
    (exists k v, Data.CommonAnnotations td !! k = Some v /\
                 e = "AMX_ANNOTATION_" +:+ k +:+ "=" +:+ v) \/
    (exists i alert, Data.Alerts td !! i = Some alert /\
       (e ∈ alert_scalars i alert \/
        (exists k v, Alert.Labels alert !! k = Some v /\
                     e = alert_key i +:+ "_LABEL_" +:+ k +:+ "=" +:+ v) \/
        (exists k v, Alert.Annotations alert !! k = Some v /\
                     e = alert_key i +:+ "_ANNOTATION_" +:+ k +:+ "=" +:+ v))).
Proof.
  intros Hro. rewrite (amDataToEnv_canonical ro Hro td). unfold env_canonical.
  rewrite !elem_of_app, !elem_of_map_entries, list_elem_of_bind.
  intros [H|[[H|[H|H]]|([i a] & He & Hia)]]; [tauto..|].
  apply elem_of_lookup_imap in Hia as (j & x & [= -> ->] & Hx).
  apply elem_of_alert_canonical in He. right; right; right; right. by exists j, x.
Qed.

(** X1. What the vector contains, whatever the order of iteration: the four
    scalar entries, one entry per key of each of the three top-level maps,
    and for the alert at each position its four scalar entries and one
    entry per label and per annotation; nothing else. *)
Theorem amDataToEnv_elem_of (ro : RangeOrder) (td : Data.t) (e : string) :
  valid_order ro ->
  e ∈ amDataToEnv ro td <->
    e ∈ env_scalars td \/
    (exists k v, Data.CommonLabels td !! k = Some v /\ e = "AMX_LABEL_" +:+ k +:+ "=" +:+ v) \/
    (exists k v, Data.GroupLabels td !! k = Some v /\ e = "AMX_GLABEL_" +:+ k +:+ "=" +:+ v) \/
    (exists k v, Data.CommonAnnotations td !! k = Some v /\
                 e = "AMX_ANNOTATION_" +:+ k +:+ "=" +:+ v) \/
    (exists i alert, Data.Alerts td !! i = Some alert /\
       (e ∈ alert_scalars i alert \/
        (exists k v, Alert.Labels alert !! k = Some v /\
                     e = alert_key i +:+ "_LABEL_" +:+ k +:+ "=" +:+ v) \/
        (exists k v, Alert.Annotations alert !! k = Some v /\
                     e = alert_key i +:+ "_ANNOTATION_" +:+ k +:+ "=" +:+ v))).
Proof.
  intros Hro. split; [by apply amDataToEnv_elem_of_cases|].
  rewrite (amDataToEnv_canonical ro Hro td). unfold env_canonical.
  rewrite !elem_of_app, !elem_of_map_entries, list_elem_of_bind.
  intros [H|[H|[H|[H|(i & a & Hia & He)]]]]; [tauto..|].
  right; right. exists (i, a). split; [by apply elem_of_alert_canonical|].
  apply elem_of_lookup_imap. by exists i, a.
Qed.

Lemma length_map_entries pfx m : length (map_entries pfx (map_to_list m)) = size m.
Proof. unfold map_entries. by rewrite length_fmap, length_map_to_list. Qed.

Lemma length_alert_canonical ia : length (alert_canonical ia) = alert_entry_count ia.2.
Proof.
  unfold alert_canonical, alert_entry_count, alert_scalars.
  rewrite !length_app, !length_map_entries. simpl. lia.
Qed.

Lemma length_bind_imap_pair {A B} (f : nat * A -> list B) (g : A -> nat) (l : list A) :
  (forall ia, length (f ia) = g ia.2) ->
  length (imap pair l ≫= f) = sum_list_with g l.
Proof.
  intros Hf.
  assert (H : forall h : nat -> A -> nat * A,
             (forall i x, (h i x).2 = x) ->
             length (imap h l ≫= f) = sum_list_with g l).
  { induction l as [|x l IH]; intros h Hh; [done|].
    rewrite imap_cons, bind_cons, length_app, Hf, Hh. simpl. f_equal.
    apply IH. intros i y. apply Hh. }
  by apply H.
Qed.

(** X2. The vector has four entries, one per key of the three top-level
    maps, and for each alert four entries and one per label and per
    annotation. *)
Theorem amDataToEnv_length (ro : RangeOrder) (td : Data.t) :
  valid_order ro ->
  length (amDataToEnv ro td) =
    (4 + size (Data.CommonLabels td) + size (Data.GroupLabels td)
       + size (Data.CommonAnnotations td)
       + sum_list_with alert_entry_count (Data.Alerts td))%nat.
Proof.
  intros Hro. rewrite (amDataToEnv_canonical ro Hro td). unfold env_canonical.
  rewrite !length_app, !length_map_entries.
  rewrite (length_bind_imap_pair _ alert_entry_count) by apply length_alert_canonical.
  simpl. lia.
Qed.

Lemma entry_ok_AMX s : has_eq s = true -> entry_ok ("AMX_" +:+ s).
Proof.
  intros Hs. unfold entry_ok. split_and!.
  - by exists s.
  - by exists (env_name s).
  - exact Hs.
Qed.

(** An entry in which [=] is written out contains it. *)
Ltac solve_has_eq := repeat (rewrite has_eq_app); simpl; rewrite ?orb_true_r; done.

Lemma map_entries_ok pfx kvs : Forall entry_ok (map_entries ("AMX_" +:+ pfx) kvs).
Proof.
  unfold map_entries. apply Forall_fmap, Forall_forall. intros [k v] _.
  apply (entry_ok_AMX (pfx +:+ "_" +:+ k +:+ "=" +:+ v)).
  solve_has_eq.
Qed.

Lemma alert_canonical_ok ia : Forall entry_ok (alert_canonical ia).
Proof.
  destruct ia as [i alert]. unfold alert_canonical, alert_key. cbn [fst snd].
  rewrite !Forall_app. split_and!.
  - unfold alert_scalars, alert_key.
    repeat (apply Forall_cons_2;
      [apply (entry_ok_AMX ("ALERT_" +:+ strconv.Itoa (Z.of_nat i + 1) +:+ _ +:+ "=" +:+ _));
       solve_has_eq|]).
    apply Forall_nil_2.
  - rewrite append_assoc. apply (map_entries_ok ("ALERT_" +:+ _)).
  - rewrite append_assoc. apply (map_entries_ok ("ALERT_" +:+ _)).
Qed.

(** X3. Every entry of the vector begins with [AMX_], has a NAME that
    begins with [AMX_] and contains a [=], whatever the keys and values of
    the payload hold. *)
Theorem amDataToEnv_entries_namespace (ro : RangeOrder) (td : Data.t) :
  valid_order ro ->
  Forall (fun e => (exists s, e = "AMX_" +:+ s) /\
                   (exists s, env_name e = "AMX_" +:+ s) /\
                   has_eq e = true)
         (amDataToEnv ro td).
Proof.
  intros Hro. change (Forall entry_ok (amDataToEnv ro td)).
  rewrite (amDataToEnv_canonical ro Hro td). unfold env_canonical.
  rewrite !Forall_app. split_and!.
  - unfold env_scalars. repeat apply Forall_cons_2; [..|apply Forall_nil_2].
    + by apply (entry_ok_AMX ("RECEIVER=" +:+ _)).
    + by apply (entry_ok_AMX ("STATUS=" +:+ _)).
    + by apply (entry_ok_AMX ("EXTERNAL_URL=" +:+ _)).
    + by apply (entry_ok_AMX ("ALERT_LEN=" +:+ _)).
  - apply (map_entries_ok "LABEL").
  - apply (map_entries_ok "GLABEL").
  - apply (map_entries_ok "ANNOTATION").
  - apply Forall_forall. intros e (ia & He & _)%list_elem_of_bind.
    pose proof (alert_canonical_ok ia) as H. rewrite Forall_forall in H. by apply H.
Qed.

(** *** Payloads without map entries *)

Lemma bind_nil_ext {A B} (f : A -> list B) (l : list A) :
  (forall x, x ∈ l -> f x = []) -> l ≫= f = [].
Proof.
  induction l as [|x l IH]; intros Hf; [done|].
  rewrite bind_cons, Hf, IH; [done| |]; [|apply list_elem_of_here].
  intros y Hy. apply Hf. by apply list_elem_of_further.
Qed.

Section NoMaps.

Variable ro : RangeOrder.
Hypothesis ro_valid : valid_order ro.

Lemma range_empty {V} s : ro V s ∅ = [].
Proof. apply Permutation_nil_r. by rewrite (ro_valid V s ∅), map_to_list_empty. Qed.

Lemma common_env_no_maps td :
  Data.CommonLabels td = ∅ -> Data.GroupLabels td = ∅ -> Data.CommonAnnotations td = ∅ ->
  common_env ro td = [].
Proof.
  intros HCL HGL HCA. unfold common_env. apply bind_nil_ext. intros [p m] Hpm.
  rewrite (ro_valid _ CommonGroups), common_groups_to_list, HCL, HGL, HCA in Hpm.
  cbn [fst snd].
  assert (m = ∅) as ->.
  { repeat (apply elem_of_cons in Hpm as [[= _ ->]|Hpm]; [done|]). by apply elem_of_nil in Hpm. }
  by rewrite range_empty.
Qed.

Lemma alert_env_no_maps i alert :
  Alert.Labels alert = ∅ -> Alert.Annotations alert = ∅ ->
  alert_env ro (i, alert) = alert_scalars i alert.
Proof.
  intros HL HA. unfold alert_env. cbn [fst snd].
  rewrite (bind_nil_ext _ (ro _ (AlertGroups i) (alert_groups alert))).
  - by rewrite app_nil_r.
  - intros [p m] Hpm.
    rewrite (ro_valid _ (AlertGroups i)), alert_groups_to_list, HL, HA in Hpm.
    cbn [fst snd].
    assert (m = ∅) as ->.
    { repeat (apply elem_of_cons in Hpm as [[= _ ->]|Hpm]; [done|]). by apply elem_of_nil in Hpm. }
    by rewrite range_empty.
Qed.

End NoMaps.

(** X4. When the payload has no label and no annotation at all, the vector
    is the same under every order of iteration: the four scalar entries,
    then the four scalar entries of each alert in the order of the
    payload. *)
Theorem amDataToEnv_no_maps (ro : RangeOrder) (td : Data.t) :
  valid_order ro -> no_map_entries td ->
  amDataToEnv ro td =
    env_scalars td ++ (imap pair (Data.Alerts td) ≫= fun ia => alert_scalars ia.1 ia.2).
Proof.
  intros Hro (HCL & HGL & HCA & HAl).
  rewrite amDataToEnv_eq, (common_env_no_maps ro Hro) by done.
  f_equal. simpl.
  assert (H : Forall (fun ia : nat * Alert.t =>
                        Alert.Labels ia.2 = ∅ /\ Alert.Annotations ia.2 = ∅)
                     (imap pair (Data.Alerts td))).
  { apply Forall_forall. intros [i a] (j & x & [= -> ->] & Hx)%elem_of_lookup_imap.
    rewrite Forall_forall in HAl. apply HAl. by eapply list_elem_of_lookup_2. }
  induction H as [|[i a] l [HL HA] _ IH]; [done|].
  by rewrite !bind_cons, IH, (alert_env_no_maps ro Hro).
Qed.

(** *** The blocks of the vector *)

Lemma bind_concat_fmap {A B} (f : A -> list B) (l : list A) : l ≫= f = concat (f <$> l).
Proof. induction l as [|x l IH]; [done|]. by rewrite bind_cons, fmap_cons, IH. Qed.

(** X5. The vector is made of the four scalar entries, then the entries of
    the top-level maps, then one block per alert in the order of the
    payload; the block of an alert begins with its four scalar entries.
    Only the order inside the part of the top-level maps and behind the
    first four entries of a block depends on the iteration. *)
Theorem amDataToEnv_blocks (ro : RangeOrder) (td : Data.t) :
  valid_order ro ->
  exists (common : list string) (blocks : list (list string)),
    amDataToEnv ro td = env_scalars td ++ common ++ concat blocks /\
    common ≡ₚ map_entries "AMX_LABEL" (map_to_list (Data.CommonLabels td)) ++
              map_entries "AMX_GLABEL" (map_to_list (Data.GroupLabels td)) ++
              map_entries "AMX_ANNOTATION" (map_to_list (Data.CommonAnnotations td)) /\
    Forall2 (fun ia block => take 4 block = alert_scalars ia.1 ia.2 /\
                             block ≡ₚ alert_canonical ia)
            (imap pair (Data.Alerts td)) blocks.
Proof.
  intros Hro. exists (common_env ro td), (alert_env ro <$> imap pair (Data.Alerts td)).
  split_and!.
  - by rewrite amDataToEnv_eq, bind_concat_fmap.
  - by apply common_env_canonical.
  - apply Forall2_fmap_r, Forall_Forall2_diag, Forall_forall. intros ia _. split.
    + by destruct ia.
    + by apply alert_env_canonical.
Qed.

(** X6. For a payload without alerts the only entry that begins with
    [AMX_ALERT_] is [AMX_ALERT_LEN=0], whatever the keys of the maps. *)
Theorem amDataToEnv_no_alerts (ro : RangeOrder) (td : Data.t) :
  valid_order ro -> Data.Alerts td = [] ->
  Forall (fun e => (exists s, e = "AMX_ALERT_" +:+ s) -> e = "AMX_ALERT_LEN=0")
         (amDataToEnv ro td).
Proof.
  intros Hro Hal. apply Forall_forall. intros e He [s Hs].
  apply (amDataToEnv_elem_of_cases ro td e Hro) in He.
  destruct He as [He|[(k & v & _ & ->)|[(k & v & _ & ->)|[(k & v & _ & ->)|(i & a & Hi & _)]]]].
  - unfold env_scalars in He. rewrite Hal in He.
    repeat (apply elem_of_cons in He as [->|He]); try (simpl in Hs; by simplify_eq).
    by apply elem_of_nil in He.
  - simpl in Hs. by simplify_eq.
  - simpl in Hs. by simplify_eq.
  - simpl in Hs. by simplify_eq.
  - by rewrite Hal in Hi.
Qed.

(** ** More on timestamps *)

Lemma Unix_inj t1 t2 :
  time.wf t1 -> time.wf t2 -> time.Unix t1 = time.Unix t2 -> time.sec t1 = time.sec t2.
Proof.
  intros [H1 _] [H2 _] H. unfold time.Unix, time.internalToUnix in H.
  apply (f_equal (fun x => GoInt.add64 x time.unixToInternal)) in H.
  by rewrite !GoIntFacts.add64_cancel in H.
Qed.

Lemma has_eq_Itoa n : has_eq (strconv.Itoa n) = false.
Proof.
  destruct n as [|p|p].
  - done.
  - apply all_digits_has_eq, all_digits_Itoa. lia.
  - unfold strconv.Itoa. simpl. apply all_digits_has_eq.
    pose proof (all_digits_Itoa (Z.pos p) ltac:(lia)) as H. exact H.
Qed.

(** X7. Two timestamps other than the zero value are encoded alike exactly
    when they lie in the same second: the nanoseconds are dropped and
    nothing else is. *)
Theorem timeToStr_eq_iff (t1 t2 : time.Time) :
  time.wf t1 -> time.wf t2 -> time.IsZero t1 = false -> time.IsZero t2 = false ->
  timeToStr t1 = timeToStr t2 <-> time.sec t1 = time.sec t2.
Proof.
  intros H1 H2 Hz1 Hz2. rewrite !timeToStr_nonzero by done. split.
  - intros H%strconvFacts.Itoa_inj. by apply Unix_inj.
  - intros H. unfold time.Unix. by rewrite H.
Qed.

(** X8. The text [0] stands for two things: the zero value of [time.Time]
    and any time within the first second of 1970 (Unix second 0). *)
Theorem timeToStr_text_0_iff (t : time.Time) :
  time.wf t ->
  timeToStr t = "0" <-> time.IsZero t = true \/ time.sec t = time.unixToInternal.
Proof.
  intros Hwf. destruct (time.IsZero t) eqn:Hz.
  - rewrite timeToStr_IsZero by done. tauto.
  - rewrite timeToStr_nonzero by done. change "0" with (strconv.Itoa 0). split.
    + intros H%strconvFacts.Itoa_inj. right.
      apply (Unix_inj t (time.mkTime time.unixToInternal 0)); [done| |by rewrite H].
      repeat split; by vm_compute.
    + intros [|H]; [done|]. f_equal. unfold time.Unix. rewrite H. by vm_compute.
Qed.

(** X9. The encoding of any timestamp is a decimal integer that
    [strconv.Atoi] reads back (0 for the zero value, the Unix seconds
    otherwise, within [int64]) and contains no [=]. *)
Theorem timeToStr_decimal (t : time.Time) :
  strconv.Atoi (timeToStr t) = Some (if time.IsZero t then 0 else time.Unix t) /\
  GoInt.in_range 64 (if time.IsZero t then 0 else time.Unix t) /\
  has_eq (timeToStr t) = false.
Proof.
  destruct (time.IsZero t) eqn:Hz.
  - rewrite timeToStr_IsZero by done. split_and!; [done| |done].
    split; by vm_compute.
  - rewrite timeToStr_nonzero by done. split_and!.
    + apply strconvFacts.Atoi_Itoa.
    + apply GoIntFacts.wrap_range.
    + apply has_eq_Itoa.
Qed.

(** ** More on the runner and the handler *)

Section HandlerEffects.

Variable E : Externals.

Lemma logged_foldl_logWriter_Write st out :
  logged (foldl logWriter_Write st out) = logged st ++ (LogOutput <$> out).
Proof.
  revert st. induction out as [|p out IH]; intros st; simpl.
  - by rewrite app_nil_r.
  - rewrite IH. simpl. by rewrite <- app_assoc.
Qed.

(** The whole effect of [run]. *)
Lemma run_effect r env st :
  run E r env st =
    ((cmd_Run E (run_cmd E r env)).2,
     mkWorld (processDuration st) (processesCurrent st) (errCounter st)
       (logged st ++ (LogOutput <$> (cmd_Run E (run_cmd E r env)).1))
       (calls st ++ [CallRun (run_cmd E r env)])
       (gauge_at_run st ++ [processesCurrent st + 1])).
Proof.
  unfold run, run_command, run_enter, run_cmd, exec.setEnv, exec.Command. simpl.
  destruct (cmd_Run E _) as [out err]. simpl. f_equal.
  match goal with |- Gauge_Dec (foldl logWriter_Write ?s out) = _ =>
    pose proof (foldl_logWriter_Write s out) as (H1 & H2 & H3 & H4);
    pose proof (logged_foldl_logWriter_Write s out) as H5;
    pose proof (gauge_at_run_foldl_logWriter_Write s out) as H6;
    destruct (foldl logWriter_Write s out) as [d g c l k h] end.
  simpl in *. unfold Gauge_Dec. simpl. subst. f_equal. lia.
Qed.

(** X10. [run] returns what [cmd.Run] returned, logs the output of the
    command chunk by chunk in the order written and nothing else, runs
    exactly one command, with the runner's command line and the inherited
    environment followed by the given entries, and leaves the error
    counters alone. *)
Theorem run_outcome (r : runner) (env : list string) (st : World) :
  (run E r env st).1 = (cmd_Run E (run_cmd E r env)).2 /\
  logged (run E r env st).2 =
    logged st ++ (LogOutput <$> (cmd_Run E (run_cmd E r env)).1) /\
  calls (run E r env st).2 = calls st ++ [CallRun (run_cmd E r env)] /\
  errCounter (run E r env st).2 = errCounter st.
Proof. by rewrite run_effect. Qed.

Lemma verbose_log_entry e st :
  (if verbose E then log_entry e st else st) =
  mkWorld (processDuration st) (processesCurrent st) (errCounter st)
          (logged st ++ verbose_log E e) (calls st) (gauge_at_run st).
Proof.
  unfold verbose_log. destruct (verbose E); [done|]. destruct st. simpl. by rewrite app_nil_r.
Qed.

Lemma WithLabelValues_effect stage st :
  errCounter_WithLabelValues stage st =
  mkWorld (processDuration st) (processesCurrent st)
          (counters_after (Some "") stage (errCounter st)) (logged st) (calls st)
          (gauge_at_run st).
Proof.
  unfold errCounter_WithLabelValues, counters_after.
  destruct (errCounter st !! stage); [by destruct st|done].
Qed.

(** The whole effect of the handler on a request whose body was read. *)
Lemma handleWebhook_read_ok w req st data :
  ReadAll (http.Body req) = (data, None) ->
  let payload := (json_Unmarshal E data Data.zero).1 in
  let uerr := (json_Unmarshal E data Data.zero).2 in
  let cmd := run_cmd E (rnr E) (amDataToEnv (range_order E) payload) in
  let out := (cmd_Run E cmd).1 in
  let rerr := (cmd_Run E cmd).2 in
  let w1 := match uerr with
            | Some err => http.Error w err http.StatusInternalServerError
            | None => w
            end in
  let w2 := match rerr with
            | Some err => http.Error w1 err http.StatusInternalServerError
            | None => w1
            end in
  handleWebhook E w req st =
    (w2, mkWorld (processDuration st) (processesCurrent st)
           (counters_after rerr "start" (counters_after uerr "unmarshal" (errCounter st)))
           (logged st ++ verbose_log E (LogText "Webhook triggered") ++
              verbose_log E (LogBody data) ++ error_log uerr ++
              verbose_log E (LogPayload payload) ++ (LogOutput <$> out) ++ error_log rerr)
           (calls st ++ [CallUnmarshal data; CallRun cmd])
           (gauge_at_run st ++ [processesCurrent st + 1])).
Proof.
  intros Hread. unfold handleWebhook, handleError, verbose_log. rewrite Hread.
  destruct (json_Unmarshal E data Data.zero) as [payload uerr].
  destruct st as [d g c l k h].
  destruct (verbose E), uerr as [uerr|];
    unfold log_entry, record_call;
    cbn [fst snd processDuration processesCurrent errCounter logged calls gauge_at_run];
    rewrite ?WithLabelValues_effect;
    cbn [fst snd processDuration processesCurrent errCounter logged calls gauge_at_run];
    rewrite run_effect;
    cbn [fst snd processDuration processesCurrent errCounter logged calls gauge_at_run];
    destruct (cmd_Run E _) as [out [rerr|]];
    cbn [fst snd processDuration processesCurrent errCounter logged calls gauge_at_run];
    rewrite ?WithLabelValues_effect;
    cbn [fst snd processDuration processesCurrent errCounter logged calls gauge_at_run
         counters_after error_log];
    f_equal; f_equal; rewrite <- ?app_assoc; cbn [app]; rewrite ?app_nil_r; reflexivity.
Qed.

(** The whole effect of the handler on a request whose body cannot be read. *)
Lemma handleWebhook_read_failed w req st data err :
  ReadAll (http.Body req) = (data, Some err) ->
  handleWebhook E w req st =
    (http.Error w err http.StatusInternalServerError,
     mkWorld (processDuration st) (processesCurrent st)
       (counters_after (Some err) "read" (errCounter st))
       (logged st ++ verbose_log E (LogText "Webhook triggered") ++ [LogError err])
       (calls st) (gauge_at_run st)).
Proof.
  intros Hread. unfold handleWebhook, handleError. rewrite Hread.
  rewrite !verbose_log_entry, WithLabelValues_effect. unfold log_entry. simpl.
  by rewrite <- app_assoc.
Qed.

End HandlerEffects.

Section HandlerMore.

Variable E : Externals.

Lemma Error_fresh err :
  http.Error http.newResponseWriter err http.StatusInternalServerError =
  http.mkResponseWriter error_header (Some 500) (error_line (Some err)).
Proof. done. Qed.

Lemma Error_again err1 err2 :
  http.Error (http.mkResponseWriter error_header (Some 500) (error_line (Some err1)))
             err2 http.StatusInternalServerError =
  http.mkResponseWriter error_header (Some 500)
    (error_line (Some err1) +:+ error_line (Some err2)).
Proof.
  unfold http.Error, http.Write, http.WriteHeader, http.Header_Set. simpl. f_equal.
Qed.

(** X11. The response to a request whose body was read: the body holds the
    decoder's error text and then the command's, each followed by a line
    feed, as far as these errors occurred; the status is 500 and the
    header fields of [http.Error] are set as soon as one of them occurred;
    otherwise nothing is written (an empty 200). *)
Theorem handleWebhook_response (req : http.Request) (st : World) (data : list byte) :
  ReadAll (http.Body req) = (data, None) ->
  let payload := (json_Unmarshal E data Data.zero).1 in
  let uerr := (json_Unmarshal E data Data.zero).2 in
  let rerr := (cmd_Run E (run_cmd E (rnr E) (amDataToEnv (range_order E) payload))).2 in
  let w' := (handleWebhook E http.newResponseWriter req st).1 in
  http.body w' = error_line uerr +:+ error_line rerr /\
  http.status w' = match uerr, rerr with None, None => None | _, _ => Some 500 end /\
  http.Header w' = match uerr, rerr with None, None => ∅ | _, _ => error_header end.
Proof.
  intros Hread. cbv zeta. rewrite (handleWebhook_read_ok E _ _ _ _ Hread). cbn [fst snd].
  destruct (json_Unmarshal E data Data.zero).2 as [uerr|];
    destruct (cmd_Run E _).2 as [rerr|]; rewrite ?Error_fresh, ?Error_again;
    cbn [http.body http.status http.Header error_line]; rewrite ?append_nil_r; done.
Qed.

(** X12. The response to a request whose body cannot be read is a 500 with
    the header fields of [http.Error] and the error text followed by a
    line feed; the error is logged. *)
Theorem handleWebhook_read_failure_response
    (req : http.Request) (st : World) (data : list byte) (err : error) :
  ReadAll (http.Body req) = (data, Some err) ->
  (handleWebhook E http.newResponseWriter req st).1 =
    http.mkResponseWriter error_header (Some 500) (err +:+ String "010" "") /\
  logged (handleWebhook E http.newResponseWriter req st).2 =
    logged st ++ verbose_log E (LogText "Webhook triggered") ++ [LogError err].
Proof.
  intros Hread. by rewrite (handleWebhook_read_failed E _ _ _ _ _ Hread).
Qed.


(** X14. A request whose body was read makes the handler decode once and
    then run the command once, with the payload the decoder left; a
    request whose body cannot be read makes it do neither. *)
Theorem handleWebhook_calls (w : http.ResponseWriter) (req : http.Request) (st : World) :
  calls (handleWebhook E w req st).2 =
    calls st ++
      match ReadAll (http.Body req) with
      | (_, Some _) => []
      | (data, None) =>
          [CallUnmarshal data;
           CallRun (run_cmd E (rnr E)
                      (amDataToEnv (range_order E) (json_Unmarshal E data Data.zero).1))]
      end.
Proof.
  destruct (ReadAll (http.Body req)) as [data [err|]] eqn:Hread.
  - rewrite (handleWebhook_read_failed E _ _ _ _ _ Hread). simpl. by rewrite app_nil_r.
  - by rewrite (handleWebhook_read_ok E _ _ _ _ Hread).
Qed.

(** X15. Whatever the request and its outcome, the handler returns with
    the in-flight gauge at the value it had and without an observation in
    the duration histogram. *)
Theorem handleWebhook_metrics (w : http.ResponseWriter) (req : http.Request) (st : World) :
  processesCurrent (handleWebhook E w req st).2 = processesCurrent st /\
  processDuration (handleWebhook E w req st).2 = processDuration st.
Proof.
  destruct (ReadAll (http.Body req)) as [data [err|]] eqn:Hread.
  - by rewrite (handleWebhook_read_failed E _ _ _ _ _ Hread).
  - by rewrite (handleWebhook_read_ok E _ _ _ _ Hread).
Qed.

(** X16. The flag [-v] changes what is logged and nothing else: the
    response, the calls made and the metrics are those of the handler
    without the flag. *)
Theorem handleWebhook_verbose
    (b : bool) (w : http.ResponseWriter) (req : http.Request) (st : World) :
  let quiet := handleWebhook (setVerbose false E) w req st in
  let loud := handleWebhook (setVerbose b E) w req st in
  loud.1 = quiet.1 /\
  calls loud.2 = calls quiet.2 /\
  errCounter loud.2 = errCounter quiet.2 /\
  processesCurrent loud.2 = processesCurrent quiet.2 /\
  processDuration loud.2 = processDuration quiet.2.
Proof.
  cbv zeta. destruct (ReadAll (http.Body req)) as [data [err|]] eqn:Hread.
  - by rewrite !(handleWebhook_read_failed _ _ _ _ _ _ Hread).
  - by rewrite !(handleWebhook_read_ok _ _ _ _ _ Hread).
Qed.

End HandlerMore.

(** ** The start of [main] *)

Lemma newRunner_cons c rest : newRunner (c :: rest) = Some (mkRunner c rest []).
Proof. unfold newRunner. simpl. by destruct rest. Qed.

(** X17. [main] gets as far as serving exactly when the version flag and
    the token flag are unset, the configuration file loads and there is a
    positional argument; the runner then has the first positional argument
    as command and the others as arguments, the server listens on the
    address of [-l], with TLS exactly when the configuration enables it. *)
Theorem main_startup_Serving (F : flag.Flags) (X : StartEnv)
    (r : runner) (addr : string) (l : Listener) :
  main_startup F X = Serving r addr l <->
    flag.showVersion F = false /\
    flag.createToken F = false /\
    exists cfg c rest,
      config_source X (flag.configFile F) = inl cfg /\
      flag.Args F = c :: rest /\
      r = mkRunner c rest [] /\
      addr = flag.listenAddr F /\
      l = (if config.Enabled (config.TLS cfg)
           then ListenAndServeTLS (config.Crt (config.TLS cfg)) (config.Key (config.TLS cfg))
           else ListenAndServe).
Proof.
  unfold main_startup. split.
  - destruct (flag.showVersion F); [by destruct (version_Print X)|].
    destruct (config_source X (flag.configFile F)) as [cfg|err]; cbn -[newRunner]; [|done].
    destruct (flag.createToken F); [by destruct (createJWT X)|].
    destruct (flag.Args F) as [|c rest]; [done|]. rewrite newRunner_cons.
    intros [= <- <- <-]. split_and!; try done. by exists cfg, c, rest.
  - intros (-> & -> & cfg & c & rest & -> & -> & -> & -> & ->). cbn -[newRunner].
    by rewrite newRunner_cons.
Qed.

(** X18. The start of [main] ends the process with status 0 in two cases
    only: the version flag is set and the version can be printed; or the
    version flag is unset, the configuration file loads, the token flag is
    set and the token can be created. *)
Theorem main_startup_exit_0 (F : flag.Flags) (X : StartEnv) :
  exit_status (main_startup F X) = Some 0 <->
    (flag.showVersion F = true /\ exists v, version_Print X = inl v) \/
    (flag.showVersion F = false /\ flag.createToken F = true /\
     (exists cfg, config_source X (flag.configFile F) = inl cfg) /\
     exists token, createJWT X = inl token).
Proof.
  unfold main_startup.
  destruct (flag.showVersion F).
  - destruct (version_Print X) as [v|err]; simpl.
    + split; [|done]. intros _. left. eauto.
    + split; [done|]. intros [(_ & v & [=])|([=] & _)].
  - destruct (config_source X (flag.configFile F)) as [cfg|err]; cbn -[newRunner].
    + destruct (flag.createToken F).
      * destruct (createJWT X) as [token|err]; simpl.
        -- split; [|done]. intros _. right. eauto 10.
        -- split; [done|]. intros [([=] & _)|(_ & _ & _ & token & [=])].
      * destruct (newRunner (flag.Args F)); simpl;
          (split; [done|]; intros [([=] & _)|(_ & [=] & _)]).
    + split; [done|]. intros [([=] & _)|(_ & _ & (cfg & [=]) & _)].
Qed.

(** X19. The command that [run] hands to [cmd.Run] for the runner made by
    [main] has the list of positional arguments itself as its arguments,
    and the inherited environment followed by the given entries as its
    [Env]. *)
Theorem newRunner_argv (E : Externals) (positional : list string) (r : runner)
    (env : list string) (st : World) :
  newRunner positional = Some r ->
  positional <> [] /\
  exists cmd, calls (run E r env st).2 = calls st ++ [CallRun cmd] /\
              exec.Args cmd = positional /\
              exec.Env cmd = os_Environ E ++ env.
Proof.
  destruct positional as [|c rest]; [done|]. rewrite newRunner_cons. intros [= <-].
  split; [done|]. eexists.
  split; [by destruct (run_frame E (mkRunner c rest []) env st) as (_ & _ & _ & ->)|done].
Qed.

(** ** The reload goroutine, whatever happens *)

Module reloadMore.

Section Watcher.

Context {Config : Type}.

Variable c : Config.

Lemma reload_Inv_init : reload_Inv c (reload.init c).
Proof. split; [simpl; lia|]. by left. Qed.

Lemma reload_Inv_step s ev : reload_Inv c s -> reload_Inv c (reload.step s ev).
Proof.
  intros [Hh Hs]. destruct ev as [|src]; simpl.
  - unfold reload.deliver. destruct (reload.hup s) eqn:Hhup; [|by split; rewrite ?Hhup].
    split; [simpl; lia|done].
  - unfold reload.schedule.
    destruct Hs as [(Hpc & Hl & Hc)|(Hpc & Hl)]; rewrite Hpc; [|by split; [|right]].
    destruct (reload.hup s) as [|u rest] eqn:Hhup; [split; [by rewrite Hhup|by left]|].
    destruct (reload.LoadConfig src (reload.exporterConfig s)) as [c' err].
    split; [simpl in *; lia|]. right. simpl. by rewrite Hl.
Qed.

Lemma reload_Inv_run evs s : reload_Inv c s -> reload_Inv c (reload.run evs s).
Proof.
  revert s. induction evs as [|ev evs IH]; intros s Hs; [done|].
  apply IH, reload_Inv_step, Hs.
Qed.

End Watcher.

(** X20. Whatever signals arrive and however the goroutine is scheduled,
    the reload goroutine loads the configuration at most once and its
    channel never holds more than one signal; as long as it has not
    loaded, it waits in its [select] and the startup configuration is
    active; once it has loaded, it has returned. *)
Theorem reload_watcher_once {Config : Type} (evs : list (reload.Event Config)) (c : Config) :
  let s := reload.run evs (reload.init c) in
  (reload.loads s <= 1)%nat /\
  (length (reload.hup s) <= 1)%nat /\
  (reload.loads s = 0%nat -> reload.pc s = reload.AtSelect /\ reload.exporterConfig s = c) /\
  (reload.loads s = 1%nat -> reload.pc s = reload.Returned).
Proof.
  destruct (reload_Inv_run c evs _ (reload_Inv_init c)) as [Hh [(Hpc & Hl & Hc)|(Hpc & Hl)]];
    cbv zeta; rewrite Hl; split_and!; try done; lia.
Qed.

End reloadMore.

(** ** The process and its signals *)

Module lifecycleFacts.

Section Process.

Context {Config : Type}.

Variable c : Config.

Lemma lifecycle_Inv_init : lifecycle_Inv (@nil (lifecycle.Event Config)) (lifecycle.init c).
Proof. unfold lifecycle_Inv. simpl. split_and!; try done. by left. Qed.

Lemma lifecycle_Inv_weaken (evs : list (lifecycle.Event Config)) ev (s : lifecycle.State Config) :
  lifecycle_Inv evs s -> lifecycle_Inv (evs ++ [ev]) s.
Proof.
  intros (H1 & H2 & H3 & H4). unfold lifecycle_Inv. setoid_rewrite elem_of_app.
  split_and!; [| done | |].
  - intros Ht. destruct (H1 Ht) as (e & He & Hte). eauto.
  - intros Hp. destruct (H3 Hp) as (Hs & e & He & Hte). eauto.
  - destruct H4 as [H|[(H & Hp & Hin)|(H & [(err & Hin)|(Hp & err & Hin)])]]; eauto 10.
Qed.

Lemma lifecycle_Inv_step (evs : list (lifecycle.Event Config)) ev (s : lifecycle.State Config) :
  lifecycle_Inv evs s -> lifecycle_Inv (evs ++ [ev]) (lifecycle.step s ev).
Proof.
  intros HI. unfold lifecycle.step.
  destruct (lifecycle.exited s) as [code|] eqn:Hex; [by apply lifecycle_Inv_weaken|].
  pose proof (lifecycle_Inv_weaken evs ev s HI) as (H1 & H2 & H3 & H4).
  assert (Hev : ev ∈ evs ++ [ev]) by (apply elem_of_app; right; apply list_elem_of_here).
  destruct ev as [sig| |result|src|err].
  - unfold lifecycle.deliver.
    destruct sig.
    + destruct (lifecycle.term s) eqn:Ht; [|by unfold lifecycle_Inv; rewrite Ht].
      unfold lifecycle_Inv; simpl. split_and!; eauto.
    + destruct (lifecycle.term s) eqn:Ht; [|by unfold lifecycle_Inv; rewrite Ht].
      unfold lifecycle_Inv; simpl. split_and!; eauto.
    + unfold lifecycle_Inv; simpl. split_and!; eauto.
  - unfold lifecycle.begin_shutdown.
    destruct (lifecycle.term_pc s) eqn:Hp; [|by unfold lifecycle_Inv; rewrite Hp].
    destruct (lifecycle.term s) as [|sg rest] eqn:Ht; [by unfold lifecycle_Inv; rewrite Hp, Ht|].
    unfold lifecycle_Inv; simpl. split_and!; try done.
    + intros _. apply H1. done.
    + intros _. rewrite (H2 eq_refl). split; [done|]. apply H1. done.
    + by left.
  - unfold lifecycle.end_shutdown.
    destruct (lifecycle.term_pc s) eqn:Hp; [by unfold lifecycle_Inv; rewrite Hp|].
    destruct result as [e|]; unfold lifecycle_Inv; simpl; split_and!; try done.
    + right; right. split; [done|]. right. eauto.
    + right; left. eauto.
  - unfold lifecycle_Inv; simpl. split_and!; try done. by left.
  - unfold lifecycle.serve_returns, lifecycle_Inv; simpl. split_and!; try done.
    right; right. split; [done|]. left. eauto.
Qed.

Lemma lifecycle_Inv_run (evs : list (lifecycle.Event Config)) :
  lifecycle_Inv evs (lifecycle.run evs (lifecycle.init c)).
Proof.
  induction evs as [|ev evs IH] using rev_ind; [apply lifecycle_Inv_init|].
  unfold lifecycle.run in *. rewrite foldl_app. simpl. by apply lifecycle_Inv_step.
Qed.

End Process.

(** X21. The process ends, if it does, with status 0 or 1;
    [server.Shutdown] is called at most once, with a timeout of five
    seconds; and status 0 is reached only after [os.Interrupt] or
    [SIGTERM] arrived and [server.Shutdown] returned no error. *)
Theorem process_exit_status {Config : Type} (evs : list (lifecycle.Event Config)) (c : Config) :
  let s := lifecycle.run evs (lifecycle.init c) in
  (lifecycle.exited s = None \/ lifecycle.exited s = Some 0 \/ lifecycle.exited s = Some 1) /\
  (lifecycle.shutdowns s = [] \/ lifecycle.shutdowns s = [lifecycle.shutdownTimeout]) /\
  (lifecycle.exited s = Some 0 ->
     lifecycle.shutdowns s = [lifecycle.shutdownTimeout] /\
     lifecycle.ShutdownReturns None ∈ evs /\
     exists ev, ev ∈ evs /\ lifecycle.is_termination ev = true).
Proof.
  destruct (lifecycle_Inv_run c evs) as (H1 & H2 & H3 & H4). cbv zeta. split_and!.
  - destruct H4 as [H|[(H & _)|(H & _)]]; auto.
  - destruct (lifecycle.term_pc _); [left; by apply H2|right; by apply H3].
  - intros H0. destruct H4 as [H|[(_ & Hp & Hin)|(H & _)]]; [congruence| |congruence].
    destruct (H3 Hp) as (Hs & Hsig). done.
Qed.

(** X22. As long as neither [os.Interrupt] nor [SIGTERM] arrives and the
    listener does not return, the process does not exit and
    [server.Shutdown] is not called, whatever else happens ([SIGHUP],
    reloads). *)
Theorem hangup_never_stops {Config : Type} (evs : list (lifecycle.Event Config)) (c : Config) :
  Forall (fun ev => lifecycle.is_termination ev = false /\ lifecycle.is_ServeReturns ev = false)
         evs ->
  lifecycle.exited (lifecycle.run evs (lifecycle.init c)) = None /\
  lifecycle.shutdowns (lifecycle.run evs (lifecycle.init c)) = [].
Proof.
  intros Hno. rewrite Forall_forall in Hno.
  destruct (lifecycle_Inv_run c evs) as (H1 & H2 & H3 & H4).
  assert (Hp : lifecycle.term_pc (lifecycle.run evs (lifecycle.init c)) = lifecycle.TermAtSelect).
  { destruct (lifecycle.term_pc _) eqn:Hp; [done|].
    destruct (H3 eq_refl) as (_ & ev & Hev & Ht). destruct (Hno ev Hev). congruence. }
  split; [|by apply H2].
  destruct H4 as [H|[(_ & Hp' & _)|(_ & [(err & Hin)|(Hp' & _)])]]; [done|congruence| |congruence].
  by destruct (Hno _ Hin).
Qed.

(** X23. Without a [SIGHUP] the reload goroutine stays as it started: the
    configuration is never loaded again, whatever other signals arrive. *)
Theorem no_hangup_no_reload {Config : Type} (evs : list (lifecycle.Event Config)) (c : Config) :
  Forall (fun ev => lifecycle.is_hangup ev = false) evs ->
  lifecycle.reloader (lifecycle.run evs (lifecycle.init c)) = reload.init c.
Proof.
  intros Hno. induction evs as [|ev evs IH] using rev_ind; [done|].
  apply Forall_app in Hno as [Hevs Hev%Forall_inv].
  unfold lifecycle.run in *. rewrite foldl_app. simpl.
  specialize (IH Hevs). revert IH.
  generalize (foldl lifecycle.step (lifecycle.init c) evs). intros s IH.
  unfold lifecycle.step.
  destruct (lifecycle.exited s); [done|].
  destruct ev as [sig| |result|src|err]; simpl.
  - unfold lifecycle.deliver. destruct sig; try done; by destruct (lifecycle.term s).
  - unfold lifecycle.begin_shutdown.
    by destruct (lifecycle.term_pc s), (lifecycle.term s).
  - unfold lifecycle.end_shutdown. by destruct (lifecycle.term_pc s), result.
  - by rewrite IH.
  - done.
Qed.

End lifecycleFacts.

(** * Instances of the further properties *)

Lemma td_no_maps_none : no_map_entries td_no_maps.
Proof. unfold no_map_entries, td_no_maps. simpl. split_and!; try done. by repeat constructor. Qed.

Lemma amDataToEnv_elem_of_witness :
  "AMX_ALERT_1_LABEL_job=web" ∈ amDataToEnv order_rev td_scenario_A.
Proof.
  apply (amDataToEnv_elem_of order_rev td_scenario_A _ order_rev_valid).
  do 4 right. eexists 0%nat, _. split; [reflexivity|].
  right; left. exists "job", "web". split; [by vm_compute|reflexivity].
Defined.

Lemma amDataToEnv_length_witness :
  length (amDataToEnv order_rev td_scenario_A) = 10%nat.
Proof. rewrite (amDataToEnv_length order_rev td_scenario_A order_rev_valid). by vm_compute. Defined.

Lemma amDataToEnv_entries_namespace_witness :
  Forall (fun e => (exists s, e = "AMX_" +:+ s) /\
                   (exists s, env_name e = "AMX_" +:+ s) /\
                   has_eq e = true)
         (amDataToEnv order_rev td_collide).
Proof. exact (amDataToEnv_entries_namespace order_rev td_collide order_rev_valid). Defined.

Lemma amDataToEnv_no_maps_witness :
  amDataToEnv order_rev td_no_maps =
  ["AMX_RECEIVER=team-x"; "AMX_STATUS=resolved"; "AMX_EXTERNAL_URL=http://am";
   "AMX_ALERT_LEN=2";
   "AMX_ALERT_1_STATUS=resolved"; "AMX_ALERT_1_START=1577836800";
   "AMX_ALERT_1_END=1577836860"; "AMX_ALERT_1_URL=http://g";
   "AMX_ALERT_2_STATUS=firing"; "AMX_ALERT_2_START=1577836800";
   "AMX_ALERT_2_END=0"; "AMX_ALERT_2_URL="].
Proof.
  rewrite (amDataToEnv_no_maps order_rev td_no_maps order_rev_valid td_no_maps_none).
  by vm_compute.
Defined.

Lemma amDataToEnv_blocks_witness :
  exists (common : list string) (blocks : list (list string)),
    amDataToEnv order_rev td_scenario_A = env_scalars td_scenario_A ++ common ++ concat blocks /\
    common ≡ₚ map_entries "AMX_LABEL" (map_to_list (Data.CommonLabels td_scenario_A)) ++
              map_entries "AMX_GLABEL" (map_to_list (Data.GroupLabels td_scenario_A)) ++
              map_entries "AMX_ANNOTATION" (map_to_list (Data.CommonAnnotations td_scenario_A)) /\
    Forall2 (fun ia block => take 4 block = alert_scalars ia.1 ia.2 /\
                             block ≡ₚ alert_canonical ia)
            (imap pair (Data.Alerts td_scenario_A)) blocks.
Proof. exact (amDataToEnv_blocks order_rev td_scenario_A order_rev_valid). Defined.

Lemma amDataToEnv_no_alerts_witness :
  Forall (fun e => (exists s, e = "AMX_ALERT_" +:+ s) -> e = "AMX_ALERT_LEN=0")
         (amDataToEnv order_rev td_two_labels).
Proof. exact (amDataToEnv_no_alerts order_rev td_two_labels order_rev_valid eq_refl). Defined.

Lemma t_2020_a_wf : time.wf t_2020_a.
Proof. repeat split; by vm_compute. Qed.

Lemma t_2020_b_wf : time.wf t_2020_b.
Proof. repeat split; by vm_compute. Qed.

Lemma t_epoch_wf : time.wf t_epoch.
Proof. repeat split; by vm_compute. Qed.

Lemma timeToStr_eq_iff_witness : timeToStr t_2020_a = timeToStr t_2020_b.
Proof.
  apply (timeToStr_eq_iff t_2020_a t_2020_b t_2020_a_wf t_2020_b_wf eq_refl eq_refl).
  reflexivity.
Defined.

Lemma timeToStr_text_0_iff_witness : timeToStr t_epoch = "0" /\ time.IsZero t_epoch = false.
Proof.
  split; [|reflexivity].
  apply (timeToStr_text_0_iff t_epoch t_epoch_wf). right. by vm_compute.
Defined.

Lemma handleWebhook_response_witness :
  let w' := (handleWebhook E_both_fail http.newResponseWriter req_truncated World_init).1 in
  http.body w' =
    error_line (Some "unexpected end of JSON input") +:+ error_line (Some "exit status 1") /\
  http.status w' = Some 500 /\
  http.Header w' = error_header.
Proof.
  exact (handleWebhook_response E_both_fail req_truncated World_init [x7b] eq_refl).
Defined.

Lemma handleWebhook_read_failure_response_witness :
  (handleWebhook E_decode_failure http.newResponseWriter req_unreadable World_init).1 =
    http.mkResponseWriter error_header (Some 500) (error_line (Some "unexpected EOF")) /\
  logged (handleWebhook E_decode_failure http.newResponseWriter req_unreadable World_init).2 =
    [LogError "unexpected EOF"].
Proof.
  exact (handleWebhook_read_failure_response E_decode_failure req_unreadable World_init
           [x7b] "unexpected EOF" eq_refl).
Defined.


Lemma main_startup_Serving_witness :
  main_startup flags_serve start_env_tls =
    Serving (mkRunner "/bin/echo" ["hello"] []) ":9000"
            (ListenAndServeTLS "server.crt" "server.key").
Proof.
  apply (main_startup_Serving flags_serve start_env_tls). split_and!; try reflexivity.
  by eexists _, _, _.
Defined.

Lemma main_startup_exit_0_witness :
  exit_status (main_startup flags_version start_env_tls) = Some 0.
Proof.
  apply (main_startup_exit_0 flags_version start_env_tls). left. split; [reflexivity|].
  by eexists.
Defined.

Lemma newRunner_argv_witness :
  ["/bin/echo"; "hello"] <> [] /\
  exists cmd,
    calls (run E_verbose_ok (mkRunner "/bin/echo" ["hello"] []) ["AMX_STATUS=firing"]
               World_init).2 = calls World_init ++ [CallRun cmd] /\
    exec.Args cmd = ["/bin/echo"; "hello"] /\
    exec.Env cmd = os_Environ E_verbose_ok ++ ["AMX_STATUS=firing"].
Proof.
  exact (newRunner_argv E_verbose_ok ["/bin/echo"; "hello"] _ ["AMX_STATUS=firing"]
           World_init eq_refl).
Defined.

Lemma hangup_never_stops_witness :
  let evs := [lifecycle.Signalled lifecycle.SIGHUP; lifecycle.RunReload (inl 1%nat);
              lifecycle.RunTermination; lifecycle.ShutdownReturns None;
              lifecycle.Signalled lifecycle.SIGHUP] in
  lifecycle.exited (lifecycle.run evs (lifecycle.init 0%nat)) = None /\
  lifecycle.shutdowns (lifecycle.run evs (lifecycle.init 0%nat)) = [].
Proof.
  apply lifecycleFacts.hangup_never_stops. by repeat constructor.
Defined.

Lemma no_hangup_no_reload_witness :
  lifecycle.reloader
    (lifecycle.run [lifecycle.Signalled lifecycle.SIGTERM; lifecycle.RunReload (inl 1%nat);
                    lifecycle.RunTermination]
                   (lifecycle.init 0%nat)) = reload.init 0%nat.
Proof.
  apply lifecycleFacts.no_hangup_no_reload. by repeat constructor.
Defined.
